(** * Alert store and evaluation engine: a shallow embedding

    The development follows [app/services/alert_service.py] and
    [app/models/alert.py].  Python values that reach the store are JSON
    values; floats are IEEE 754 binary64 numbers, computed with the
    specification of the Standard Library ([SpecFloat]), so every numeric
    statement below is about the arithmetic the interpreter performs. *)

From Stdlib Require Import ZArith Floats.SpecFloat DecimalString.
From stdpp Require Import gmap strings list fin_maps.

Local Open Scope string_scope.
Local Open Scope Z_scope.

(** ** Binary64 floats, as Python's [float] *)

Module F64.

Abbreviation float := spec_float.

Definition prec : Z := 53.
Definition emax : Z := 1024.

Definition add : float -> float -> float := SFadd prec emax.
Definition sub : float -> float -> float := SFsub prec emax.
Definition mul : float -> float -> float := SFmul prec emax.
Definition div : float -> float -> float := SFdiv prec emax.
Definition abs : float -> float := SFabs.

(** [x < y] and [x <= y]; Python's [x > y] is [ltb y x], [x >= y] is
    [leb y x].  Any comparison with a NaN is false. *)
Definition ltb : float -> float -> bool := SFltb.
Definition leb : float -> float -> bool := SFleb.
Definition eqb : float -> float -> bool := SFeqb.

(** [float(z)] for an integer [z]. *)
Definition of_Z (z : Z) : float := binary_normalize prec emax z 0 false.

Definition zero : float := S754_zero false.
Definition hundred : float := Eval vm_compute in of_Z 100.


(** Truth value of a float: only the two zeros are falsy. *)
Definition truthy (x : float) : bool :=
  match x with
  | S754_zero _ => false
  | _ => true
  end.

(** *** [format(x, ".<digits>f")]

    The interpreter prints the decimal expansion of the exact binary
    value, rounded to [digits] places, ties to even; the sign is printed
    whenever the sign bit is set. *)

Definition round_half_even (num den : Z) : Z :=
  let q := num / den in
  let r := num mod den in
  match 2 * r ?= den with
  | Lt => q
  | Gt => q + 1
  | Eq => if Z.even q then q else q + 1
  end.

Definition decimal (z : Z) : string := NilZero.string_of_uint (N.to_uint (Z.to_N z)).

Fixpoint zeros (n : nat) : string :=
  match n with
  | O => ""
  | S k => "0" +:+ zeros k
  end.

Definition zfill (width : nat) (s : string) : string :=
  zeros (width - String.length s) +:+ s.

(** [n] counts units of [10^-digits]. *)
Definition fixed (digits : nat) (n : Z) : string :=
  let scale := 10 ^ Z.of_nat digits in
  decimal (n / scale) +:+
  match digits with
  | O => ""
  | _ => "." +:+ zfill digits (decimal (n mod scale))
  end.

Definition sign_str (s : bool) : string := if s then "-" else "".

Definition format_f (digits : nat) (x : float) : string :=
  match x with
  | S754_nan => "nan"
  | S754_infinity s => sign_str s +:+ "inf"
  | S754_zero s => sign_str s +:+ fixed digits 0
  | S754_finite s m e =>
      let scale := 10 ^ Z.of_nat digits in
      let n :=
        match e with
        | Zneg p => round_half_even (Zpos m * scale) (2 ^ Zpos p)
        | _ => Zpos m * 2 ^ e * scale
        end in
      sign_str s +:+ fixed digits n
  end.

End F64.

Abbreviation float := F64.float.

(** ** Python values held by the store

    [self._alerts] is whatever [json.loads] returned, later extended with
    dictionaries built by [create_alert]: JSON values.  A [dict] with
    string keys is a finite map. *)

#[warnings="-register-all"]
Inductive json : Type :=
| JNull
| JBool (b : bool)
| JInt (z : Z)
| JFloat (f : float)
| JStr (s : string)
| JArr (items : list json)
| JObj (fields : gmap string json).

(** Exceptions that leave the store's methods. *)
Inductive exn : Type :=
| AlertLimitExceededError (current_count : Z) (max_allowed : Z)
| AlertNotFoundError (alert_id : string)
| KeyError (key : string)
| TypeError
| AttributeError
| ValidationError
| UnicodeDecodeError
| OSError.

(** [len(v)]: defined on strings, lists and dicts only. *)
Definition py_len (v : json) : exn + nat :=
  match v with
  | JStr s => inr (String.length s)
  | JArr l => inr (length l)
  | JObj m => inr (size m)
  | _ => inl TypeError
  end.

Fixpoint chars (s : string) : list json :=
  match s with
  | EmptyString => []
  | String c r => JStr (String c EmptyString) :: chars r
  end.

(** [for a in v]: a list yields its items, a string its characters, a
    dict its keys. *)
Definition py_iter (v : json) : exn + list json :=
  match v with
  | JArr l => inr l
  | JStr s => inr (chars s)
  | JObj m => inr (JStr <$> (map_to_list m).*1)
  | _ => inl TypeError
  end.

(** [v[key]] for a string [key]. *)
Definition py_getitem (v : json) (key : string) : exn + json :=
  match v with
  | JObj m =>
      match m !! key with
      | Some x => inr x
      | None => inl (KeyError key)
      end
  | _ => inl TypeError
  end.

(** [v != s] for a string [s]. *)
Definition py_ne_str (v : json) (s : string) : bool :=
  match v with
  | JStr t => negb (String.eqb t s)
  | _ => true
  end.

(** ** [app/models/alert.py] *)

Inductive AlertType := PRICE_THRESHOLD | SIGNAL_CHANGE | PORTFOLIO_VALUE.
Inductive PriceDirection := ABOVE | BELOW.
Inductive SignalTarget := BUY | SELL | HOLD.

Definition AlertType_value (t : AlertType) : string :=
  match t with
  | PRICE_THRESHOLD => "price_threshold"
  | SIGNAL_CHANGE => "signal_change"
  | PORTFOLIO_VALUE => "portfolio_value"
  end.

Definition PriceDirection_value (d : PriceDirection) : string :=
  match d with
  | ABOVE => "above"
  | BELOW => "below"
  end.

Definition SignalTarget_value (s : SignalTarget) : string :=
  match s with
  | BUY => "BUY"
  | SELL => "SELL"
  | HOLD => "HOLD"
  end.

(** A [datetime], kept as its ISO 8601 text. *)
Abbreviation datetime := string (only parsing).

Module Alert.
Record t : Type := mk {
  id : string;
  user_id : string;
  alert_type : AlertType;
  ticker : option string;
  target_price : option float;
  price_direction : option PriceDirection;
  target_signal : option SignalTarget;
  percentage_threshold : option float;
  baseline_value : option float;
  created_at : datetime }.
End Alert.

Module AlertSummaryInfo.
Record t : Type := mk {
  id : string;
  alert_type : AlertType;
  ticker : option string;
  target_price : option float;
  price_direction : option PriceDirection;
  target_signal : option SignalTarget;
  percentage_threshold : option float;
  baseline_value : option float }.
End AlertSummaryInfo.

Module TriggeredAlertResult.
Record t : Type := mk {
  alert : AlertSummaryInfo.t;
  triggered : bool;
  current_value : option string;
  details : option string;
  error : option string;
  evaluated_at : datetime }.
End TriggeredAlertResult.

Module TriggeredAlertsSummary.
Record t : Type := mk {
  total_alerts : Z;
  triggered_count : Z;
  not_triggered_count : Z;
  error_count : Z }.
End TriggeredAlertsSummary.

(** *** Validation of a stored record: [Alert] called with the
    dictionary's entries as keyword arguments

    Each field is read from the dictionary and checked against its
    declared type: a required string, an enumeration member given by its
    value, an optional string or float (absent or [null] is [None], an
    integer is converted to a float).  Keys the model does not declare are
    ignored.  The coercions that pydantic applies to other inputs
    (numbers spelled as strings, timestamps given as numbers) are not
    modelled: such records are rejected here, and nothing below depends on
    a rejection. *)

Definition field_str (v : option json) : option string :=
  match v with
  | Some (JStr s) => Some s
  | _ => None
  end.

Definition field_opt_str (v : option json) : option (option string) :=
  match v with
  | None | Some JNull => Some None
  | Some (JStr s) => Some (Some s)
  | _ => None
  end.

Definition field_opt_float (v : option json) : option (option float) :=
  match v with
  | None | Some JNull => Some None
  | Some (JFloat f) => Some (Some f)
  | Some (JInt z) => Some (Some (F64.of_Z z))
  | _ => None
  end.

Definition AlertType_of (s : string) : option AlertType :=
  if String.eqb s "price_threshold" then Some PRICE_THRESHOLD
  else if String.eqb s "signal_change" then Some SIGNAL_CHANGE
  else if String.eqb s "portfolio_value" then Some PORTFOLIO_VALUE
  else None.

Definition PriceDirection_of (s : string) : option PriceDirection :=
  if String.eqb s "above" then Some ABOVE
  else if String.eqb s "below" then Some BELOW
  else None.

Definition SignalTarget_of (s : string) : option SignalTarget :=
  if String.eqb s "BUY" then Some BUY
  else if String.eqb s "SELL" then Some SELL
  else if String.eqb s "HOLD" then Some HOLD
  else None.

Definition field_opt_enum {A} (of_value : string -> option A) (v : option json)
  : option (option A) :=
  match v with
  | None | Some JNull => Some None
  | Some (JStr s) => Some <$> of_value s
  | _ => None
  end.

Definition Alert_validate (data : gmap string json) : option Alert.t :=
  id ← field_str (data !! "id");
  user_id ← field_str (data !! "user_id");
  alert_type ← field_str (data !! "alert_type") ≫= AlertType_of;
  ticker ← field_opt_str (data !! "ticker");
  target_price ← field_opt_float (data !! "target_price");
  price_direction ← field_opt_enum PriceDirection_of (data !! "price_direction");
  target_signal ← field_opt_enum SignalTarget_of (data !! "target_signal");
  percentage_threshold ← field_opt_float (data !! "percentage_threshold");
  baseline_value ← field_opt_float (data !! "baseline_value");
  created_at ← field_str (data !! "created_at");
  Some (Alert.mk id user_id alert_type ticker target_price price_direction
          target_signal percentage_threshold baseline_value created_at).

(** ** Exceptions as values

    A call that raises returns [inl e]; [x ← c; k] stops at the first
    exception, as a sequence of statements does. *)

#[local] Instance sum_ret {E} : MRet (sum E) := λ A x, inr x.
#[local] Instance sum_bind {E} : MBind (sum E) :=
  λ A B f c, match c with inl e => inl e | inr x => f x end.

(** ** The durable file

    What the service can observe of a file is what [read_text] followed by
    [json.loads] does with it.  [json.dump] writes a text that
    [json.loads] reads back as the value dumped (every value of [json] is
    serialisable, so [default=str] is never called). *)

Inductive file_content : Type :=
| Json (doc : json)
| NotJson
| NotUtf8
| Unreadable.

(** The directory of the data file: the file itself, if it exists, and
    the temporary files next to it. *)
Record directory : Type := Directory {
  data_file : option file_content;
  tmp_files : list file_content }.

(** What the file system does during one [_save_alerts]. *)
Inductive io_fault := NoFault | MkdirFails | MkstempFails | WriteFails | ReplaceFails.

Definition mkstemp (d : directory) : directory :=
  Directory (data_file d) (NotJson :: tmp_files d).

Definition write_tmp (c : file_content) (d : directory) : directory :=
  Directory (data_file d) (c :: tail (tmp_files d)).

Definition unlink_tmp (d : directory) : directory :=
  Directory (data_file d) (tail (tmp_files d)).

Definition replace_tmp (d : directory) : directory :=
  Directory (head (tmp_files d)) (tail (tmp_files d)).

(** ** [app/services/alert_service.py]: the store *)

Module AlertService.
Record t : Type := mk {
  _max_per_user : Z;
  _alerts : gmap string json }.
End AlertService.
Import AlertService.

(** The service and the directory it persists to. *)
Record world : Type := World {
  self : AlertService.t;
  dir : directory }.

Definition set_alerts (s : AlertService.t) (a : gmap string json) : AlertService.t :=
  AlertService.mk (_max_per_user s) a.

Fixpoint sum_len (vs : list json) : exn + nat :=
  match vs with
  | [] => inr O
  | v :: r => n ← py_len v; m ← sum_len r; mret (n + m)%nat
  end.

(** [_load_alerts]: returns the exception that escapes, if any, and the
    service as the call leaves it. *)
Definition _load_alerts (d : directory) (s : AlertService.t) : (exn + ()) * AlertService.t :=
  match data_file d with
  | None => (inr (), s)
  | Some Unreadable => (inr (), set_alerts s ∅)
  | Some NotUtf8 => (inl UnicodeDecodeError, s)
  | Some NotJson => (inr (), set_alerts s ∅)
  | Some (Json (JObj data)) =>
      let s' := set_alerts s data in
      match sum_len (map_to_list data).*2 with
      | inl e => (inl e, s')
      | inr total => (inr (), s')
      end
  | Some (Json _) => (inr (), set_alerts s ∅)
  end.

(** [AlertService(data_file, max_per_user)] *)
Definition AlertService_init (d : directory) (max_per_user : Z) : exn + AlertService.t :=
  match _load_alerts d (AlertService.mk max_per_user ∅) with
  | (inl e, _) => inl e
  | (inr _, s) => inr s
  end.

(** [_save_alerts]: the temporary file is created, written, and renamed
    over the data file; when a step after its creation fails it is
    removed and the exception is raised again. *)
Definition _save_alerts (io : io_fault) (alerts : gmap string json) (d : directory)
  : (exn + ()) * directory :=
  match io with
  | MkdirFails => (inl OSError, d)
  | MkstempFails => (inl OSError, d)
  | WriteFails => (inl OSError, unlink_tmp (write_tmp NotJson (mkstemp d)))
  | ReplaceFails => (inl OSError, unlink_tmp (write_tmp (Json (JObj alerts)) (mkstemp d)))
  | NoFault => (inr (), replace_tmp (write_tmp (Json (JObj alerts)) (mkstemp d)))
  end.

Definition _get_user_alerts (s : AlertService.t) (user_id : string) : json :=
  default (JArr []) (_alerts s !! user_id).

Definition _to_alert (data : json) : exn + Alert.t :=
  match data with
  | JObj m =>
      match Alert_validate m with
      | Some a => inr a
      | None => inl ValidationError
      end
  | _ => inl TypeError
  end.

Fixpoint to_alerts (raw : list json) : exn + list Alert.t :=
  match raw with
  | [] => inr []
  | a :: r => x ← _to_alert a; xs ← to_alerts r; mret (x :: xs)
  end.

Definition list_alerts (s : AlertService.t) (user_id : string) : exn + list Alert.t :=
  raw ← py_iter (_get_user_alerts s user_id);
  to_alerts raw.

Definition dict_get (d : gmap string json) (key : string) : json :=
  default JNull (d !! key).

(** The dictionary [create_alert] stores; [new_id] is [str(uuid.uuid4())]
    and [now] the clock's reading.  The payload's values are JSON values
    (a member of a string enumeration being its string). *)
Definition new_alert_dict (user_id : string) (alert_data : gmap string json)
    (new_id : string) (now : datetime) : exn + gmap string json :=
  match alert_data !! "alert_type" with
  | None => inl (KeyError "alert_type")
  | Some alert_type =>
      inr (list_to_map
        [ ("id", JStr new_id);
          ("user_id", JStr user_id);
          ("alert_type", alert_type);
          ("ticker", dict_get alert_data "ticker");
          ("target_price", dict_get alert_data "target_price");
          ("price_direction", dict_get alert_data "price_direction");
          ("target_signal", dict_get alert_data "target_signal");
          ("percentage_threshold", dict_get alert_data "percentage_threshold");
          ("baseline_value", dict_get alert_data "baseline_value");
          ("created_at", JStr now) ])
  end.

(** [v.append(x)] *)
Definition py_append (v : json) (x : json) : exn + json :=
  match v with
  | JArr l => inr (JArr (l ++ [x]))
  | _ => inl AttributeError
  end.

Definition create_alert (w : world) (user_id : string) (alert_data : gmap string json)
    (new_id : string) (now : datetime) (io : io_fault) : (exn + Alert.t) * world :=
  let s := self w in
  let user_alerts := _get_user_alerts s user_id in
  match py_len user_alerts with
  | inl e => (inl e, w)
  | inr n =>
      if _max_per_user s <=? Z.of_nat n then
        (inl (AlertLimitExceededError (Z.of_nat n) (_max_per_user s)), w)
      else
        match new_alert_dict user_id alert_data new_id now with
        | inl e => (inl e, w)
        | inr alert_dict =>
            let alerts1 :=
              match _alerts s !! user_id with
              | None => <[user_id := JArr []]> (_alerts s)
              | Some _ => _alerts s
              end in
            match py_append (default JNull (alerts1 !! user_id)) (JObj alert_dict) with
            | inl e => (inl e, World (set_alerts s alerts1) (dir w))
            | inr v =>
                let alerts2 := <[user_id := v]> alerts1 in
                let s2 := set_alerts s alerts2 in
                match _save_alerts io alerts2 (dir w) with
                | (inl e, d) => (inl e, World s2 d)
                | (inr _, d) => (_to_alert (JObj alert_dict), World s2 d)
                end
            end
        end
  end.

(** [[a for a in items if a["id"] != alert_id]] *)
Fixpoint without_id (items : list json) (alert_id : string) : exn + list json :=
  match items with
  | [] => inr []
  | a :: r =>
      i ← py_getitem a "id";
      rest ← without_id r alert_id;
      mret (if py_ne_str i alert_id then a :: rest else rest)
  end.

Definition delete_alert (w : world) (user_id alert_id : string) (io : io_fault)
  : (exn + ()) * world :=
  let s := self w in
  let user_alerts := _get_user_alerts s user_id in
  match py_len user_alerts with
  | inl e => (inl e, w)
  | inr original_len =>
      match py_iter user_alerts ≫= λ items, without_id items alert_id with
      | inl e => (inl e, w)
      | inr filtered =>
          if (length filtered =? original_len)%nat then
            (inl (AlertNotFoundError alert_id), w)
          else
            let alerts' := <[user_id := JArr filtered]> (_alerts s) in
            let s' := set_alerts s alerts' in
            match _save_alerts io alerts' (dir w) with
            | (inl e, d) => (inl e, World s' d)
            | (inr _, d) => (inr (), World s' d)
            end
      end
  end.

(** ** [app/services/alert_service.py]: evaluation

    The collaborators are given from outside.  Of the data frame a fetch
    returns, only the "Close" column is read here.  A collaborator that
    raises returns [inl msg], where [msg] is the text of the exception;
    the providers are taken to answer the same way throughout one
    evaluation. *)

Abbreviation dataframe := (list float) (only parsing).

Record collaborators (indicators : Type) : Type := Collaborators {
  fetch_historical_data : option string -> string + dataframe;
  calculate : dataframe -> string + indicators;
  get_current_price : dataframe -> string + float;
  generate : indicators -> float -> string + string }.

Arguments fetch_historical_data {indicators}.
Arguments calculate {indicators}.
Arguments get_current_price {indicators}.
Arguments generate {indicators}.

Definition _alert_to_summary (alert : Alert.t) : AlertSummaryInfo.t :=
  AlertSummaryInfo.mk
    (Alert.id alert)
    (Alert.alert_type alert)
    (Alert.ticker alert)
    (Alert.target_price alert)
    (Alert.price_direction alert)
    (Alert.target_signal alert)
    (Alert.percentage_threshold alert)
    (Alert.baseline_value alert).

(** [float(df["Close"].iloc[-1])] *)
Definition last_close (df : dataframe) : string + float :=
  match last df with
  | Some p => inr p
  | None => inl "single positional indexer is out-of-bounds"
  end.

(** [str(x)] for an optional string. *)
Definition str_opt (x : option string) : string := default "None" x.

(** [x.value] where [x] may be [None]. *)
Definition attr_value {A} (x : option A) : string + A :=
  match x with
  | Some v => inr v
  | None => inl "'NoneType' object has no attribute 'value'"
  end.

(** The right operand of a comparison with a float on the left. *)
Definition float_operand (op : string) (x : option float) : string + float :=
  match x with
  | Some v => inr v
  | None =>
      inl ("'" +:+ op +:+ "' not supported between instances of 'float' and 'NoneType'")
  end.

Definition evaluate_price_threshold {I} (c : collaborators I) (now : datetime)
    (alert : Alert.t) : TriggeredAlertResult.t :=
  let summary := _alert_to_summary alert in
  let ticker := str_opt (Alert.ticker alert) in
  let attempt : string + TriggeredAlertResult.t :=
    df ← fetch_historical_data c (Alert.ticker alert);
    current_price ← last_close df;
    direction ← attr_value (Alert.price_direction alert);
    if String.eqb (PriceDirection_value direction) "above" then
      target ← float_operand ">" (Alert.target_price alert);
      let triggered := F64.ltb target current_price in
      let details :=
        ticker +:+ " current price $" +:+ F64.format_f 2 current_price +:+ " is " +:+
        (if triggered then "above" else "below") +:+
        " target $" +:+ F64.format_f 2 target in
      mret (TriggeredAlertResult.mk summary triggered
              (Some (F64.format_f 2 current_price)) (Some details) None now)
    else
      target ← float_operand "<" (Alert.target_price alert);
      let triggered := F64.ltb current_price target in
      let details :=
        ticker +:+ " current price $" +:+ F64.format_f 2 current_price +:+ " is " +:+
        (if triggered then "below" else "above") +:+
        " target $" +:+ F64.format_f 2 target in
      mret (TriggeredAlertResult.mk summary triggered
              (Some (F64.format_f 2 current_price)) (Some details) None now) in
  match attempt with
  | inr r => r
  | inl exc =>
      TriggeredAlertResult.mk summary false None None
        (Some ("Failed to fetch data for " +:+ ticker +:+ ": " +:+ exc)) now
  end.

Definition evaluate_signal_change {I} (c : collaborators I) (now : datetime)
    (alert : Alert.t) : TriggeredAlertResult.t :=
  let summary := _alert_to_summary alert in
  let ticker := str_opt (Alert.ticker alert) in
  let attempt : string + TriggeredAlertResult.t :=
    df ← fetch_historical_data c (Alert.ticker alert);
    indicators ← calculate c df;
    current_price ← get_current_price c df;
    current_signal ← generate c indicators current_price;
    target ← attr_value (Alert.target_signal alert);
    let triggered := String.eqb current_signal (SignalTarget_value target) in
    let details :=
      ticker +:+ " current signal is " +:+ current_signal +:+
      ", target is " +:+ SignalTarget_value target in
    mret (TriggeredAlertResult.mk summary triggered
            (Some current_signal) (Some details) None now) in
  match attempt with
  | inr r => r
  | inl exc =>
      TriggeredAlertResult.mk summary false None None
        (Some ("Failed to fetch data for " +:+ ticker +:+ ": " +:+ exc)) now
  end.

(** The loop over the holdings: a ticker whose price cannot be had leaves
    the running total as it is. *)
Definition add_holding {I} (c : collaborators I) (total_value : float) (ticker : string)
  : float :=
  match fetch_historical_data c (Some ticker) ≫= last_close with
  | inr price => F64.add total_value price
  | inl _ => total_value
  end.

Definition portfolio_total {I} (c : collaborators I) (holdings : list string) : float :=
  fold_left (add_holding c) holdings F64.zero.

(** [alert.baseline_value or 0.0] *)
Definition baseline_of (alert : Alert.t) : float :=
  match Alert.baseline_value alert with
  | Some b => if F64.truthy b then b else F64.zero
  | None => F64.zero
  end.

Definition pct_change (total_value baseline : float) : float :=
  if F64.ltb F64.zero baseline then
    F64.mul (F64.abs (F64.div (F64.sub total_value baseline) baseline)) F64.hundred
  else F64.zero.

Definition evaluate_portfolio_value {I} (c : collaborators I) (now : datetime)
    (alert : Alert.t) (holdings : list string) : TriggeredAlertResult.t :=
  let summary := _alert_to_summary alert in
  match holdings with
  | [] =>
      TriggeredAlertResult.mk summary false (Some "0.00")
        (Some "Portfolio has no holdings, value is $0.00") None now
  | _ =>
      let total_value := portfolio_total c holdings in
      let baseline := baseline_of alert in
      let pct := pct_change total_value baseline in
      match float_operand ">=" (Alert.percentage_threshold alert) with
      | inr threshold =>
          let triggered := F64.leb threshold pct in
          let details :=
            "Portfolio value changed by " +:+ F64.format_f 1 pct +:+ "% " +:+
            "(from $" +:+ F64.format_f 2 baseline +:+ " to $" +:+
            F64.format_f 2 total_value +:+ "), " +:+
            (if triggered then "exceeds" else "below") +:+ " " +:+
            F64.format_f 1 threshold +:+ "% threshold" in
          TriggeredAlertResult.mk summary triggered
            (Some (F64.format_f 2 total_value)) (Some details) None now
      | inl exc =>
          TriggeredAlertResult.mk summary false None None
            (Some ("Failed to evaluate portfolio value: " +:+ exc)) now
      end
  end.

(** One alert of the batch.  [Alert.alert_type] is one of the three
    members, so the final [else] of the source is never taken. *)
Definition evaluate_alert {I} (c : collaborators I) (now : datetime)
    (portfolio_holdings : option (list string)) (alert : Alert.t)
  : TriggeredAlertResult.t :=
  match Alert.alert_type alert with
  | PRICE_THRESHOLD => evaluate_price_threshold c now alert
  | SIGNAL_CHANGE => evaluate_signal_change c now alert
  | PORTFOLIO_VALUE =>
      let holdings := default [] portfolio_holdings in
      evaluate_portfolio_value c now alert holdings
  end.

Definition count_if {A} (p : A -> bool) (l : list A) : Z :=
  Z.of_nat (length (filter (λ x, p x = true) l)).

Definition check_triggered_alerts {I} (s : AlertService.t) (user_id : string)
    (c : collaborators I) (now : datetime) (portfolio_holdings : option (list string))
  : exn + list TriggeredAlertResult.t * TriggeredAlertsSummary.t :=
  alerts ← list_alerts s user_id;
  let results := evaluate_alert c now portfolio_holdings <$> alerts in
  let triggered_count := count_if TriggeredAlertResult.triggered results in
  let error_count :=
    count_if (λ r, bool_decide (TriggeredAlertResult.error r ≠ None)) results in
  let not_triggered_count :=
    Z.of_nat (length results) - triggered_count - error_count in
  let summary :=
    TriggeredAlertsSummary.mk (Z.of_nat (length results)) triggered_count
      not_triggered_count error_count in
  mret (results, summary).

(** ** Notions used to state the properties *)

(** The percentage change as the specification words it:
    [|current - baseline| / baseline * 100] when the baseline is positive,
    zero otherwise. *)
Definition pct_change_spec (current baseline : float) : float :=
  if F64.ltb F64.zero baseline then
    F64.mul (F64.div (F64.abs (F64.sub current baseline)) baseline) F64.hundred
  else F64.zero.

(** The closing price of a holding, when its fetch succeeds. *)
Definition close_of {I} (c : collaborators I) (ticker : string) : option float :=
  match fetch_historical_data c (Some ticker) ≫= last_close with
  | inr price => Some price
  | inl _ => None
  end.

(** The prices of the holdings whose fetch succeeded, in order. *)
Definition fetched_closes {I} (c : collaborators I) (holdings : list string) : list float :=
  omap (close_of c) holdings.

(** A sum of floats, added from left to right starting at [0.0]. *)
Definition float_sum (prices : list float) : float :=
  fold_left F64.add prices F64.zero.


(** *** Sequences of calls *)

Inductive request : Type :=
| Create (user_id : string) (alert_data : gmap string json)
    (new_id : string) (now : datetime) (io : io_fault)
| Delete (user_id alert_id : string) (io : io_fault).

(** The world a call leaves behind, whether it returns or raises. *)
Definition step (w : world) (r : request) : world :=
  match r with
  | Create user_id alert_data new_id now io =>
      (create_alert w user_id alert_data new_id now io).2
  | Delete user_id alert_id io => (delete_alert w user_id alert_id io).2
  end.

Definition io_of (r : request) : io_fault :=
  match r with
  | Create _ _ _ _ io => io
  | Delete _ _ io => io
  end.

(** [reaches ok w0 w]: [w] is the world after some sequence of calls
    issued from [w0], each of them allowed by [ok] when it is issued. *)
Inductive reaches (ok : world -> request -> Prop) (w0 : world) : world -> Prop :=
| reaches_here : reaches ok w0 w0
| reaches_step w r : reaches ok w0 w -> ok w r -> reaches ok w0 (step w r).

(** The id of a stored record, and the ids stored under one owner. *)
Definition record_id (a : json) : option string :=
  match a with
  | JObj m =>
      match m !! "id" with
      | Some (JStr i) => Some i
      | _ => None
      end
  | _ => None
  end.

Definition owner_ids (v : json) : list string :=
  match v with
  | JArr l => omap record_id l
  | _ => []
  end.

(** No stored record carries the id [i]. *)
Definition id_unused (i : string) (s : AlertService.t) : Prop :=
  map_Forall (λ _ v, i ∉ owner_ids v) (_alerts s).

(** The identifier generator hands out an id that is not in use. *)
Definition fresh_id (w : world) (r : request) : Prop :=
  match r with
  | Create _ _ new_id _ _ => id_unused new_id (self w)
  | Delete _ _ _ => True
  end.

(** The file system does not fail during the call. *)
Definition persisted (w : world) (r : request) : Prop := io_of r = NoFault.

(** A service just constructed where no data file exists yet. *)
Definition fresh_world (max_per_user : Z) : world :=
  World (AlertService.mk max_per_user ∅) (Directory None []).

(** *** Invariants of the store *)

(** A record stored under [u]: a dictionary carrying [u] as its owner and
    a string as its id. *)
Definition owned_by (u : string) (a : json) : Prop :=
  ∃ m i, a = JObj m ∧ m !! "user_id" = Some (JStr u) ∧ m !! "id" = Some (JStr i).

Definition well_owned (s : AlertService.t) : Prop :=
  ∀ u v, _alerts s !! u = Some v → ∃ l, v = JArr l ∧ Forall (owned_by u) l.

Definition ids_apart (s : AlertService.t) : Prop :=
  ∀ u1 u2 v1 v2 i, u1 ≠ u2 →
    _alerts s !! u1 = Some v1 → _alerts s !! u2 = Some v2 →
    i ∈ owner_ids v1 → i ∉ owner_ids v2.

Definition isolated (s : AlertService.t) : Prop := well_owned s ∧ ids_apart s.

(** Every owner's entry has a length. *)
Definition sized (v : json) : Prop := ∃ n, py_len v = inr n.

Definition all_sized (m : gmap string json) : Prop := map_Forall (λ _ v, sized v) m.

(** The data file holds what the service holds: a restart yields the
    same service. *)
Definition synced (w : world) : Prop :=
  AlertService_init (dir w) (_max_per_user (self w)) = inr (self w).


(** *** Further notions *)

(** Any call at all, whatever the file system does. *)
Definition any_request (w : world) (r : request) : Prop := True.

(** The owner a call is made for. *)
Definition request_owner (r : request) : string :=
  match r with
  | Create user_id _ _ _ _ => user_id
  | Delete user_id _ _ => user_id
  end.

(** Every entry is a list no longer than the maximum. *)
Definition within_quota (s : AlertService.t) : Prop :=
  ∀ u v, _alerts s !! u = Some v →
    ∃ l, v = JArr l ∧ Z.of_nat (length l) ≤ _max_per_user s.

(** No id occurs twice under one owner. *)
Definition ids_unique (s : AlertService.t) : Prop :=
  ∀ u v, _alerts s !! u = Some v → NoDup (owner_ids v).

(** A result as the strategies build it: either a verdict with its value
    and explanation, or an error and nothing else. *)
Definition verdict_or_error (r : TriggeredAlertResult.t) : Prop :=
  (TriggeredAlertResult.error r = None ∧
   is_Some (TriggeredAlertResult.current_value r) ∧
   is_Some (TriggeredAlertResult.details r)) ∨
  (is_Some (TriggeredAlertResult.error r) ∧
   TriggeredAlertResult.triggered r = false ∧
   TriggeredAlertResult.current_value r = None ∧
   TriggeredAlertResult.details r = None).

(** ** Sample data for the closed instances *)

Definition f200 : float := Eval vm_compute in F64.of_Z 200.
Definition f205 : float := Eval vm_compute in F64.of_Z 205.
Definition f195 : float := Eval vm_compute in F64.of_Z 195.
Definition f1000 : float := Eval vm_compute in F64.of_Z 1000.
Definition f1060 : float := Eval vm_compute in F64.of_Z 1060.
Definition f5 : float := Eval vm_compute in F64.of_Z 5.
Definition f6 : float := Eval vm_compute in F64.of_Z 6.

(** A market in which AAPL last closed at 205, X at 1060, A at 200 and C
    at 5, and every other ticker cannot be fetched. *)
Definition sample_market : collaborators () :=
  Collaborators ()
    (λ ticker,
       match ticker with
       | Some "AAPL" => inr [f195; f205]
       | Some "X" => inr [f1060]
       | Some "A" => inr [f200]
       | Some "C" => inr [f5]
       | _ => inl "No data found"
       end)
    (λ _, inr ())
    last_close
    (λ _ _, inr "BUY").

Definition sample_price_alert : Alert.t :=
  Alert.mk "a-1" "user1" PRICE_THRESHOLD (Some "AAPL") (Some f200) (Some ABOVE)
    None None None "2026-01-01T00:00:00+00:00".

Definition sample_portfolio_alert : Alert.t :=
  Alert.mk "a-2" "user1" PORTFOLIO_VALUE None None None None (Some f5) (Some f1000)
    "2026-01-01T00:00:00+00:00".

Definition sample_payload : gmap string json :=
  list_to_map
    [ ("alert_type", JStr "price_threshold");
      ("ticker", JStr "AAPL");
      ("target_price", JFloat f200);
      ("price_direction", JStr "above") ].

Definition sample_now : string := "2026-01-02T00:00:00+00:00".

(** A store of capacity two after one create for "user1". *)
Definition sample_world : world :=
  (create_alert (fresh_world 2) "user1" sample_payload "a-1" sample_now NoFault).2.

(** The same store after a second create, for "user2". *)
Definition sample_world_two : world :=
  (create_alert sample_world "user2" sample_payload "b-1" sample_now NoFault).2.

(** A payload whose alert type is none of the three. *)
Definition sample_unknown_payload : gmap string json :=
  list_to_map [ ("alert_type", JStr "price_drop"); ("ticker", JStr "AAPL") ].

(** A signal alert on AAPL waiting for BUY, and one waiting for SELL. *)
Definition sample_signal_alert : Alert.t :=
  Alert.mk "a-3" "user1" SIGNAL_CHANGE (Some "AAPL") None None (Some BUY) None None
    "2026-01-01T00:00:00+00:00".

(** A portfolio alert created without a baseline. *)
Definition sample_no_baseline_alert : Alert.t :=
  Alert.mk "a-4" "user1" PORTFOLIO_VALUE None None None None (Some f5) None
    "2026-01-01T00:00:00+00:00".

(** A price alert on a ticker the sample market cannot fetch. *)
Definition sample_unfetchable_alert : Alert.t :=
  Alert.mk "a-5" "user1" PRICE_THRESHOLD (Some "ZZZZ") (Some f200) (Some BELOW)
    None None None "2026-01-01T00:00:00+00:00".

(** * Properties *)

(** ** Facts about binary64 arithmetic *)

Section Binary64.

Lemma abs_binary_round_aux s m e l :
  SFabs (binary_round_aux F64.prec F64.emax s m e l) =
  binary_round_aux F64.prec F64.emax false m e l.
Proof.
  unfold binary_round_aux.
  destruct (shr_fexp _ _ m e l) as [mrs' e'].
  destruct (shr_fexp _ _ _ e' loc_Exact) as [mrs'' e''].
  destruct (shr_m mrs''); [done| |done].
  by destruct (_ <=? _).
Qed.

(** A float above zero is a positive finite number or plus infinity. *)
Lemma ltb_zero_inv b :
  F64.ltb F64.zero b = true →
  (∃ m e, b = S754_finite false m e) ∨ b = S754_infinity false.
Proof. destruct b as [s|[]| |[] m e]; try discriminate; eauto. Qed.

(** Dividing by a positive number commutes with the absolute value. *)
Lemma abs_div_pos x b :
  F64.ltb F64.zero b = true → F64.abs (F64.div x b) = F64.div (F64.abs x) b.
Proof.
  intros [(m & e & ->)| ->]%ltb_zero_inv.
  - destruct x as [s|s| |s mx ex]; try done.
    unfold F64.div, F64.abs, SFdiv; cbn [SFabs].
    destruct (SFdiv_core_binary _ _ _ _ _ _) as [[mz ez] lz].
    rewrite abs_binary_round_aux. by rewrite Bool.xorb_false_r.
  - by destruct x.
Qed.




Lemma compare_antisym x y : SFcompare y x = CompOpp <$> SFcompare x y.
Proof.
  assert (Hz : ∀ a b, IntDef.Z.compare b a = CompOpp (IntDef.Z.compare a b))
    by exact Z.compare_antisym.
  assert (Hp : ∀ a b,
    PosDef.Pos.compare_cont Eq b a = CompOpp (PosDef.Pos.compare_cont Eq a b))
    by exact Pos.compare_antisym.
  destruct x as [[]|[]| |[] mx ex], y as [[]|[]| |[] my ey]; try done; cbn.
  all: rewrite (Hz ex ey); destruct (IntDef.Z.compare ex ey); try done; cbn.
  all: rewrite (Hp mx my); by destruct (PosDef.Pos.compare_cont Eq mx my).
Qed.

(** Numbers that compare equal are not ordered either way. *)
Lemma eqb_not_ltb x y :
  F64.eqb x y = true → F64.ltb x y = false ∧ F64.ltb y x = false.
Proof.
  unfold F64.eqb, F64.ltb, SFeqb, SFltb. rewrite (compare_antisym x y).
  by destruct (SFcompare x y) as [[]|].
Qed.

End Binary64.

(** ** Evaluation strategies *)

(** The source's formula and the specification's agree on every input. *)
Lemma pct_change_refines total baseline :
  pct_change total baseline = pct_change_spec total baseline.
Proof.
  unfold pct_change, pct_change_spec.
  destruct (F64.ltb F64.zero baseline) eqn:Hpos; [|done].
  by rewrite abs_div_pos.
Qed.


(** C4: a price-threshold alert whose fetch gives the price [p] is
    triggered exactly when the direction is above and [p] exceeds the
    target, or the direction is below and [p] is under the target; a price
    equal to the target does not trigger; the result carries [p] printed
    with two decimals and no error.  With target 200, direction above and
    a close of 205.0 the verdict is true and the value reads "205.00". *)
Theorem price_threshold_verdict {I} (c : collaborators I) (now : string)
    (alert : Alert.t) (target : float) (direction : PriceDirection)
    (closes : list float) (p : float) :
  Alert.target_price alert = Some target →
  Alert.price_direction alert = Some direction →
  fetch_historical_data c (Alert.ticker alert) = inr closes →
  last closes = Some p →
  let r := evaluate_price_threshold c now alert in
  (TriggeredAlertResult.triggered r = true ↔
     (direction = ABOVE ∧ F64.ltb target p = true) ∨
     (direction = BELOW ∧ F64.ltb p target = true)) ∧
  (F64.eqb p target = true → TriggeredAlertResult.triggered r = false) ∧
  TriggeredAlertResult.current_value r = Some (F64.format_f 2 p) ∧
  TriggeredAlertResult.error r = None ∧
  (target = f200 → direction = ABOVE → p = f205 →
     TriggeredAlertResult.triggered r = true ∧
     TriggeredAlertResult.current_value r = Some "205.00").
Proof.
  intros Ht Hd Hf Hp r. subst r. unfold evaluate_price_threshold.
  rewrite Hf. cbn. unfold last_close. rewrite Hp, Hd. cbn.
  destruct direction; cbn; rewrite Ht; cbn; split_and!; try done.
  - split; [by left|]. by intros [[_ H]|[? _]].
  - intros H. by apply eqb_not_ltb in H as [_ ->].
  - by intros -> _ ->.
  - split; [by right|]. by intros [[? _]|[_ H]].
  - intros H. by apply eqb_not_ltb in H as [-> _].
Qed.

Lemma price_threshold_verdict_witness :
  Alert.target_price sample_price_alert = Some f200 ∧
  Alert.price_direction sample_price_alert = Some ABOVE ∧
  fetch_historical_data sample_market (Alert.ticker sample_price_alert)
    = inr [f195; f205] ∧
  last [f195; f205] = Some f205 ∧
  TriggeredAlertResult.triggered
    (evaluate_price_threshold sample_market sample_now sample_price_alert) = true ∧
  TriggeredAlertResult.current_value
    (evaluate_price_threshold sample_market sample_now sample_price_alert)
    = Some "205.00".
Proof.
  destruct (price_threshold_verdict sample_market sample_now sample_price_alert
              f200 ABOVE [f195; f205] f205 eq_refl eq_refl eq_refl eq_refl)
    as (_ & _ & _ & _ & Hscenario).
  destruct (Hscenario eq_refl eq_refl eq_refl) as [Htriggered Hvalue].
  split_and!; [reflexivity|reflexivity|reflexivity|reflexivity|
               exact Htriggered|exact Hvalue].
Defined.

(** The loop adds up, from left to right, the prices that could be
    fetched; a holding that fails contributes nothing. *)
Lemma fold_holdings_sum {I} (c : collaborators I) holdings acc :
  fold_left (add_holding c) holdings acc =
  fold_left F64.add (fetched_closes c holdings) acc.
Proof.
  revert acc. induction holdings as [|t holdings IH]; intros acc; [done|].
  cbn. rewrite IH. unfold add_holding, close_of.
  by destruct (fetch_historical_data c (Some t) ≫= last_close).
Qed.

Lemma portfolio_total_sum {I} (c : collaborators I) holdings :
  portfolio_total c holdings = float_sum (fetched_closes c holdings).
Proof. apply fold_holdings_sum. Qed.

Lemma fetched_closes_skip {I} (c : collaborators I) (xs ys : list string) t :
  close_of c t = None →
  fetched_closes c (xs ++ t :: ys)%list = fetched_closes c (xs ++ ys)%list.
Proof.
  intros Ht. unfold fetched_closes. rewrite !omap_app. cbn. by rewrite Ht.
Qed.


(** What the strategy returns once the holdings are not empty and the
    threshold is set. *)
Lemma evaluate_portfolio_value_unfold {I} (c : collaborators I) now alert holdings
    threshold :
  holdings ≠ [] →
  Alert.percentage_threshold alert = Some threshold →
  evaluate_portfolio_value c now alert holdings =
  let total_value := portfolio_total c holdings in
  let baseline := baseline_of alert in
  let pct := pct_change total_value baseline in
  let triggered := F64.leb threshold pct in
  TriggeredAlertResult.mk (_alert_to_summary alert) triggered
    (Some (F64.format_f 2 total_value))
    (Some ("Portfolio value changed by " +:+ F64.format_f 1 pct +:+ "% " +:+
           "(from $" +:+ F64.format_f 2 baseline +:+ " to $" +:+
           F64.format_f 2 total_value +:+ "), " +:+
           (if triggered then "exceeds" else "below") +:+ " " +:+
           F64.format_f 1 threshold +:+ "% threshold"))
    None now.
Proof.
  intros Hne Hth. unfold evaluate_portfolio_value.
  destruct holdings; [done|]. by rewrite Hth.
Qed.

(** C5: with no holdings a portfolio alert is not triggered and reports
    the value zero.  Otherwise, for the current value [c] (the sum of the
    prices fetched) and the baseline [b], the percentage change is
    [|c - b| / b * 100] when [b > 0] and [0] otherwise, and the alert is
    triggered exactly when that change is at least the threshold.  A
    threshold of 5, a baseline of 1000 and a single holding closing at
    1060 give a change of 6.0 and a triggered alert. *)
Theorem portfolio_value_verdict {I} (c : collaborators I) (now : string)
    (alert : Alert.t) (holdings : list string) (threshold : float) :
  Alert.percentage_threshold alert = Some threshold →
  let r := evaluate_portfolio_value c now alert holdings in
  let current := float_sum (fetched_closes c holdings) in
  let pct := pct_change_spec current (baseline_of alert) in
  (holdings = [] →
     TriggeredAlertResult.triggered r = false ∧
     TriggeredAlertResult.current_value r = Some "0.00" ∧
     TriggeredAlertResult.details r = Some "Portfolio has no holdings, value is $0.00" ∧
     TriggeredAlertResult.error r = None) ∧
  (holdings ≠ [] →
     TriggeredAlertResult.triggered r = F64.leb threshold pct ∧
     TriggeredAlertResult.current_value r = Some (F64.format_f 2 current) ∧
     TriggeredAlertResult.error r = None) ∧
  (∀ x, holdings = [x] → close_of c x = Some f1060 →
     Alert.baseline_value alert = Some f1000 → threshold = f5 →
     pct = f6 ∧ TriggeredAlertResult.triggered r = true).
Proof.
  intros Hth r current pct. subst r current pct. split_and!.
  - by intros ->.
  - intros Hne. rewrite (evaluate_portfolio_value_unfold c now alert holdings threshold)
      by done.
    cbv zeta. by rewrite <-pct_change_refines, portfolio_total_sum.
  - intros x -> Hx Hb ->.
    rewrite (evaluate_portfolio_value_unfold c now alert [x] f5) by done.
    cbv zeta. rewrite <-pct_change_refines, portfolio_total_sum.
    unfold fetched_closes, baseline_of. cbn. by rewrite Hx, Hb.
Qed.

Lemma portfolio_value_verdict_witness :
  Alert.percentage_threshold sample_portfolio_alert = Some f5 ∧
  TriggeredAlertResult.triggered
    (evaluate_portfolio_value sample_market sample_now sample_portfolio_alert ["X"])
    = true ∧
  pct_change_spec (float_sum (fetched_closes sample_market ["X"]))
    (baseline_of sample_portfolio_alert) = f6 ∧
  TriggeredAlertResult.current_value
    (evaluate_portfolio_value sample_market sample_now sample_portfolio_alert [])
    = Some "0.00".
Proof.
  pose proof (portfolio_value_verdict sample_market sample_now sample_portfolio_alert
                ["X"] f5 eq_refl) as (_ & _ & Hx).
  pose proof (portfolio_value_verdict sample_market sample_now sample_portfolio_alert
                [] f5 eq_refl) as (H0 & _ & _).
  destruct (Hx "X" eq_refl eq_refl eq_refl eq_refl) as [Hpct Htr].
  destruct (H0 eq_refl) as (_ & Hcv & _ & _).
  split_and!; [reflexivity|exact Htr|exact Hpct|exact Hcv].
Defined.

(** C6: in a portfolio alert with holdings, a holding whose fetch fails is
    passed over and the others are still added: the current value is the
    sum of the closes of exactly the holdings that could be fetched, it is
    what the result reports, and the result carries no error. *)
Theorem portfolio_partial_failure {I} (c : collaborators I) (now : string)
    (alert : Alert.t) (holdings : list string) (threshold : float) :
  holdings ≠ [] →
  Alert.percentage_threshold alert = Some threshold →
  let r := evaluate_portfolio_value c now alert holdings in
  portfolio_total c holdings = float_sum (fetched_closes c holdings) ∧
  (∀ (xs ys : list string) (t : string),
     holdings = (xs ++ t :: ys)%list → close_of c t = None →
     portfolio_total c holdings = portfolio_total c (xs ++ ys)%list) ∧
  TriggeredAlertResult.current_value r =
    Some (F64.format_f 2 (float_sum (fetched_closes c holdings))) ∧
  TriggeredAlertResult.error r = None.
Proof.
  intros Hne Hth r. subst r. split_and!.
  - apply portfolio_total_sum.
  - intros xs ys t -> Ht. by rewrite !portfolio_total_sum, fetched_closes_skip.
  - rewrite (evaluate_portfolio_value_unfold c now alert holdings threshold) by done.
    cbv zeta. by rewrite portfolio_total_sum.
  - by rewrite (evaluate_portfolio_value_unfold c now alert holdings threshold).
Qed.

Lemma portfolio_partial_failure_witness :
  ["A"; "B"; "C"] ≠ [] ∧
  Alert.percentage_threshold sample_portfolio_alert = Some f5 ∧
  close_of sample_market "B" = None ∧
  portfolio_total sample_market ["A"; "B"; "C"] = F64.add (F64.add F64.zero f200) f5 ∧
  TriggeredAlertResult.current_value
    (evaluate_portfolio_value sample_market sample_now sample_portfolio_alert
       ["A"; "B"; "C"]) = Some "205.00" ∧
  TriggeredAlertResult.error
    (evaluate_portfolio_value sample_market sample_now sample_portfolio_alert
       ["A"; "B"; "C"]) = None.
Proof.
  assert (Hne : ["A"; "B"; "C"] ≠ @nil string) by discriminate.
  destruct (portfolio_partial_failure sample_market sample_now sample_portfolio_alert
              ["A"; "B"; "C"] f5 Hne eq_refl) as (Hsum & _ & Hcv & Herr).
  split_and!; [exact Hne|reflexivity|reflexivity|exact Hsum|exact Hcv|exact Herr].
Defined.



(** ** The store *)

Lemma set_alerts_same s : set_alerts s (_alerts s) = s.
Proof. by destruct s. Qed.

Lemma save_no_fault alerts d :
  _save_alerts NoFault alerts d =
  (inr (), Directory (Some (Json (JObj alerts))) (tmp_files d)).
Proof. done. Qed.

(** A save that fails raises [OSError] and leaves the directory as it
    found it: the data file untouched, the temporary file removed. *)
Lemma save_fault io alerts d :
  io ≠ NoFault → _save_alerts io alerts d = (inl OSError, d).
Proof. by destruct io, d. Qed.

Lemma get_user_alerts_insert s u v :
  _get_user_alerts (set_alerts s (<[u := v]> (_alerts s))) u = v.
Proof. unfold _get_user_alerts. cbn. by rewrite lookup_insert_eq. Qed.

(** [create_alert] past the quota check, for an owner whose entry is a
    list: the record is appended, then saved, then validated. *)
Lemma create_alert_appends w u data i now io l alert_dict :
  _get_user_alerts (self w) u = JArr l →
  Z.of_nat (length l) < _max_per_user (self w) →
  new_alert_dict u data i now = inr alert_dict →
  create_alert w u data i now io =
  let alerts2 := <[u := JArr (l ++ [JObj alert_dict])]> (_alerts (self w)) in
  let s2 := set_alerts (self w) alerts2 in
  match _save_alerts io alerts2 (dir w) with
  | (inl e, d) => (inl e, World s2 d)
  | (inr _, d) => (_to_alert (JObj alert_dict), World s2 d)
  end.
Proof.
  intros Hl Hlt Hd. unfold create_alert. rewrite Hl. cbn [py_len].
  destruct (Z.leb_spec (_max_per_user (self w)) (Z.of_nat (length l))); [lia|].
  rewrite Hd. unfold _get_user_alerts in Hl.
  destruct (_alerts (self w) !! u) as [v|] eqn:Hu; cbn in Hl.
  - subst v. rewrite Hu. done.
  - injection Hl as <-. rewrite lookup_insert_eq. cbn.
    by rewrite insert_insert_eq.
Qed.

(** [create_alert] at or past the quota. *)
Lemma create_alert_full w u data i now io l :
  _get_user_alerts (self w) u = JArr l →
  _max_per_user (self w) ≤ Z.of_nat (length l) →
  create_alert w u data i now io =
  (inl (AlertLimitExceededError (Z.of_nat (length l)) (_max_per_user (self w))), w).
Proof.
  intros Hl Hge. unfold create_alert. rewrite Hl. cbn [py_len].
  by destruct (Z.leb_spec (_max_per_user (self w)) (Z.of_nat (length l))); [|lia].
Qed.

(** [delete_alert] for an owner whose entry is a list. *)
Lemma delete_alert_list w u alert_id io l filtered :
  _get_user_alerts (self w) u = JArr l →
  without_id l alert_id = inr filtered →
  delete_alert w u alert_id io =
  if (length filtered =? length l)%nat then (inl (AlertNotFoundError alert_id), w)
  else
    let alerts' := <[u := JArr filtered]> (_alerts (self w)) in
    let s' := set_alerts (self w) alerts' in
    match _save_alerts io alerts' (dir w) with
    | (inl e, d) => (inl e, World s' d)
    | (inr _, d) => (inr (), World s' d)
    end.
Proof.
  intros Hl Hf. unfold delete_alert. rewrite Hl. cbn. by rewrite Hf.
Qed.

(** C2: for an owner holding [count] alerts under a maximum [N]: when
    [count >= N], create raises the quota error carrying [count] and [N]
    and nothing changes; when [count < N] (the payload being valid and the
    save going through) create returns the alert and the owner's
    collection is the old one followed by exactly that one record. *)
Theorem create_alert_quota (w : world) (user_id : string)
    (alert_data : gmap string json) (new_id now : string) (io : io_fault)
    (l : list json) :
  _get_user_alerts (self w) user_id = JArr l →
  let N := _max_per_user (self w) in
  let count := Z.of_nat (length l) in
  (N ≤ count →
     create_alert w user_id alert_data new_id now io =
       (inl (AlertLimitExceededError count N), w)) ∧
  (count < N →
     ∀ alert_dict alert,
       new_alert_dict user_id alert_data new_id now = inr alert_dict →
       _to_alert (JObj alert_dict) = inr alert →
       ∃ w',
         create_alert w user_id alert_data new_id now NoFault = (inr alert, w') ∧
         _get_user_alerts (self w') user_id = JArr (l ++ [JObj alert_dict]) ∧
         (∀ u, u ≠ user_id → _alerts (self w') !! u = _alerts (self w) !! u) ∧
         _max_per_user (self w') = N ∧
         data_file (dir w') = Some (Json (JObj (_alerts (self w'))))).
Proof.
  intros Hl N count. split.
  - intros Hge. by apply create_alert_full.
  - intros Hlt alert_dict alert Hd Hv.
    rewrite (create_alert_appends w user_id alert_data new_id now NoFault l alert_dict)
      by done.
    cbv zeta. rewrite save_no_fault, Hv. eexists. split; [done|]. cbn. split_and!.
    + apply get_user_alerts_insert.
    + intros u Hu. by rewrite lookup_insert_ne.
    + done.
    + done.
Qed.

Lemma create_alert_quota_witness :
  _get_user_alerts (self (fresh_world 1)) "user1" = JArr [] ∧
  (∃ alert alert_dict w',
     create_alert (fresh_world 1) "user1" sample_payload "a-1" sample_now NoFault
       = (inr alert, w') ∧
     _get_user_alerts (self w') "user1" = JArr [JObj alert_dict] ∧
     Alert.id alert = "a-1") ∧
  create_alert (fresh_world 0) "user1" sample_payload "a-1" sample_now NoFault
    = (inl (AlertLimitExceededError 0 0), fresh_world 0).
Proof.
  destruct (create_alert_quota (fresh_world 1) "user1" sample_payload "a-1"
              sample_now NoFault [] eq_refl) as [_ Hok].
  destruct (create_alert_quota (fresh_world 0) "user1" sample_payload "a-1"
              sample_now NoFault [] eq_refl) as [Hfull _].
  split_and!; [reflexivity| |exact (Hfull ltac:(done))].
  destruct (Hok ltac:(done) _ _ eq_refl eq_refl) as (w' & Hc & Hget & _).
  eexists _, _, w'. split_and!; [exact Hc|exact Hget|reflexivity].
Defined.

(** A create whose save fails leaves the new record in memory: the
    owner's collection differs from the one before the call, and a
    restart over the data file would not see the record. *)
Lemma create_alert_failed_save_diverges :
  let w := fresh_world 10 in
  let r := create_alert w "user1" sample_payload "a-1" sample_now WriteFails in
  r.1 = inl OSError ∧
  _get_user_alerts (self r.2) "user1" ≠ _get_user_alerts (self w) "user1" ∧
  dir r.2 = dir w ∧
  AlertService_init (dir r.2) 10 = inr (self w).
Proof. by split_and!. Qed.

(** C1, as the code has it: when the save fails during create or delete,
    [OSError] reaches the caller and the directory (hence the data file)
    is left as it was, while the collection in memory keeps the change:
    after create it is the old one followed by the new record, after
    delete it is the old one without the records of that id. *)
Theorem persist_failure_keeps_mutation (w : world) (user_id : string)
    (alert_data : gmap string json) (new_id now alert_id : string)
    (io : io_fault) (l : list json) :
  io ≠ NoFault →
  _get_user_alerts (self w) user_id = JArr l →
  let created := create_alert w user_id alert_data new_id now io in
  let deleted := delete_alert w user_id alert_id io in
  (∀ alert_dict,
     Z.of_nat (length l) < _max_per_user (self w) →
     new_alert_dict user_id alert_data new_id now = inr alert_dict →
     created.1 = inl OSError ∧
     dir created.2 = dir w ∧
     _get_user_alerts (self created.2) user_id = JArr (l ++ [JObj alert_dict])) ∧
  (∀ filtered,
     without_id l alert_id = inr filtered →
     length filtered ≠ length l →
     deleted.1 = inl OSError ∧
     dir deleted.2 = dir w ∧
     _get_user_alerts (self deleted.2) user_id = JArr filtered).
Proof.
  intros Hio Hl created deleted. subst created deleted. split.
  - intros alert_dict Hlt Hd.
    rewrite (create_alert_appends w user_id alert_data new_id now io l alert_dict)
      by done.
    cbv zeta. rewrite save_fault by done. cbn [fst snd dir self].
    split_and!; [done|done|apply get_user_alerts_insert].
  - intros filtered Hf Hlen.
    rewrite (delete_alert_list w user_id alert_id io l filtered) by done.
    apply Nat.eqb_neq in Hlen. rewrite Hlen. cbv zeta.
    rewrite save_fault by done. cbn [fst snd dir self].
    split_and!; [done|done|apply get_user_alerts_insert].
Qed.

Lemma persist_failure_keeps_mutation_witness :
  let created := create_alert sample_world "user1" sample_payload "a-2" sample_now WriteFails in
  let deleted := delete_alert sample_world "user1" "a-1" WriteFails in
  WriteFails ≠ NoFault ∧
  (∃ a, _get_user_alerts (self sample_world) "user1" = JArr [a]) ∧
  created.1 = inl OSError ∧
  dir created.2 = dir sample_world ∧
  (∃ a b, _get_user_alerts (self created.2) "user1" = JArr [a; b]) ∧
  deleted.1 = inl OSError ∧
  dir deleted.2 = dir sample_world ∧
  _get_user_alerts (self deleted.2) "user1" = JArr [].
Proof.
  assert (Hio : WriteFails ≠ NoFault) by discriminate.
  assert (Hlen : 0%nat ≠ 1%nat) by discriminate.
  destruct (persist_failure_keeps_mutation sample_world "user1" sample_payload
              "a-2" sample_now "a-1" WriteFails [_] Hio eq_refl) as [Hcreate Hdelete].
  destruct (Hcreate _ eq_refl eq_refl) as (Hc & Hcd & Hcm).
  destruct (Hdelete [] eq_refl Hlen) as (Hd & Hdd & Hdm).
  split_and!; [exact Hio|by eexists|exact Hc|exact Hcd| |exact Hd|exact Hdd|exact Hdm].
  eexists _, _. exact Hcm.
Defined.

(** *** Startup *)

Lemma sum_len_sized vs : Forall sized vs ↔ ∃ n, sum_len vs = inr n.
Proof.
  induction vs as [|v vs IH]; cbn.
  - split; eauto.
  - rewrite Forall_cons, IH. unfold sized. split.
    + intros [[n ->] [m ->]]. cbn. eauto.
    + intros [k Hk]. destruct (py_len v) as [e|n]; [done|].
      destruct (sum_len vs) as [e|m]; [done|]. eauto.
Qed.

Lemma all_sized_values m : all_sized m ↔ Forall sized (map_to_list m).*2.
Proof.
  unfold all_sized. rewrite map_Forall_to_list, Forall_fmap.
  apply Forall_proper; [|done]. by intros [k v].
Qed.

(** Loading a mapping succeeds exactly when each of its values has a
    length, and then the service holds the mapping itself. *)
Lemma init_mapping d N data :
  data_file d = Some (Json (JObj data)) →
  all_sized data →
  AlertService_init d N = inr (AlertService.mk N data).
Proof.
  intros Hd [n Hn]%all_sized_values%sum_len_sized.
  unfold AlertService_init, _load_alerts. by rewrite Hd, Hn.
Qed.

Lemma init_mapping_inv d N data s :
  data_file d = Some (Json (JObj data)) →
  AlertService_init d N = inr s →
  all_sized data ∧ s = AlertService.mk N data.
Proof.
  intros Hd. unfold AlertService_init, _load_alerts. rewrite Hd.
  destruct (sum_len _) as [e|n] eqn:Hn; [done|].
  intros [= <-]. split; [|done]. apply all_sized_values, sum_len_sized. eauto.
Qed.





(** *** Restart *)

Arguments _save_alerts : simpl never.

Lemma init_max d N s : AlertService_init d N = inr s → _max_per_user s = N.
Proof.
  unfold AlertService_init, _load_alerts.
  destruct (data_file d) as [[[]| | |]|]; try (by intros [= <-]).
  destruct (sum_len _); by intros [= <-].
Qed.

Lemma create_alert_max w u data i now io :
  _max_per_user (self (create_alert w u data i now io).2) = _max_per_user (self w).
Proof.
  unfold create_alert.
  repeat (case_match; try done).
Qed.

Lemma delete_alert_max w u i io :
  _max_per_user (self (delete_alert w u i io).2) = _max_per_user (self w).
Proof.
  unfold delete_alert.
  repeat (case_match; try done).
Qed.

Lemma step_max w r : _max_per_user (self (step w r)) = _max_per_user (self w).
Proof. destruct r; [apply create_alert_max|apply delete_alert_max]. Qed.

(** What a restart can read back is a store whose entries all have a
    length. *)
Lemma synced_sized w : synced w → all_sized (_alerts (self w)).
Proof.
  unfold synced. destruct (data_file (dir w)) as [[doc| | |]|] eqn:Hd.
  - destruct doc; try (unfold AlertService_init, _load_alerts; rewrite Hd;
      intros [= <-]; apply map_Forall_empty).
    intros H. by apply (init_mapping_inv _ _ _ _ Hd) in H as [? ->].
  - unfold AlertService_init, _load_alerts. rewrite Hd.
    intros [= <-]. apply map_Forall_empty.
  - unfold AlertService_init, _load_alerts. by rewrite Hd.
  - unfold AlertService_init, _load_alerts. rewrite Hd.
    intros [= <-]. apply map_Forall_empty.
  - unfold AlertService_init, _load_alerts. rewrite Hd.
    intros [= <-]. apply map_Forall_empty.
Qed.

Lemma synced_after_save s alerts tmp :
  all_sized alerts →
  synced (World (set_alerts s alerts) (Directory (Some (Json (JObj alerts))) tmp)).
Proof. intros H. unfold synced. by apply init_mapping. Qed.

Lemma all_sized_insert_array m u l :
  all_sized m → all_sized (<[u := JArr l]> m).
Proof. intros H. apply map_Forall_insert_2; [by eexists|done]. Qed.

Lemma create_alert_synced w u data i now :
  synced w → synced (create_alert w u data i now NoFault).2.
Proof.
  intros Hw. pose proof (synced_sized w Hw) as Hs. unfold create_alert.
  destruct (py_len _) as [e|n]; [done|].
  destruct (_ <=? _); [done|].
  destruct (new_alert_dict _ _ _ _) as [e|alert_dict]; [done|].
  destruct (_alerts (self w) !! u) as [v|] eqn:Hu.
  - rewrite Hu. cbn. destruct v; cbn; try (by rewrite set_alerts_same; destruct w).
    rewrite save_no_fault. apply synced_after_save. by apply all_sized_insert_array.
  - rewrite lookup_insert_eq. cbn. rewrite save_no_fault.
    apply synced_after_save. rewrite insert_insert_eq. by apply all_sized_insert_array.
Qed.

Lemma delete_alert_synced w u i :
  synced w → synced (delete_alert w u i NoFault).2.
Proof.
  intros Hw. pose proof (synced_sized w Hw) as Hs. unfold delete_alert.
  destruct (py_len _) as [e|n]; [done|].
  destruct (_ ≫= _) as [e|filtered]; [done|].
  destruct (_ =? _)%nat; [done|].
  rewrite save_no_fault. apply synced_after_save. by apply all_sized_insert_array.
Qed.

Lemma step_synced w r : synced w → persisted w r → synced (step w r).
Proof.
  unfold persisted. destruct r; cbn; intros Hw ->.
  - by apply create_alert_synced.
  - by apply delete_alert_synced.
Qed.

(** C8: after any sequence of creates and deletes whose saves went
    through, constructing a fresh service over the same directory yields
    the very store that was in memory: the same owners, each with the same
    records in the same order. *)
Theorem durability_round_trip (d0 : directory) (N : Z) (s0 : AlertService.t)
    (w : world) :
  AlertService_init d0 N = inr s0 →
  reaches persisted (World s0 d0) w →
  AlertService_init (dir w) N = inr (self w) ∧
  (∀ s', AlertService_init (dir w) N = inr s' →
     _alerts s' = _alerts (self w) ∧
     ∀ u, list_alerts s' u = list_alerts (self w) u).
Proof.
  intros Hinit Hreach.
  assert (synced w ∧ _max_per_user (self w) = N) as [Hw HN].
  { induction Hreach as [|w r _ [IH HN] Hr].
    - split; [|by apply init_max in Hinit].
      unfold synced. cbn. by rewrite (init_max _ _ _ Hinit).
    - split; [by apply step_synced|by rewrite step_max]. }
  unfold synced in Hw. rewrite HN in Hw. split; [done|].
  intros s'. rewrite Hw. by intros [= <-].
Qed.

Lemma durability_round_trip_witness :
  AlertService_init (Directory None []) 2 = inr (AlertService.mk 2 ∅) ∧
  reaches persisted (fresh_world 2) sample_world_two ∧
  AlertService_init (dir sample_world_two) 2 = inr (self sample_world_two).
Proof.
  assert (Hreach : reaches persisted (fresh_world 2) sample_world_two).
  { apply (reaches_step persisted (fresh_world 2) sample_world
             (Create "user2" sample_payload "b-1" sample_now NoFault));
      [|reflexivity].
    apply (reaches_step persisted (fresh_world 2) (fresh_world 2)
             (Create "user1" sample_payload "a-1" sample_now NoFault));
      [|reflexivity].
    apply reaches_here. }
  split_and!; [reflexivity|exact Hreach|].
  exact (proj1 (durability_round_trip (Directory None []) 2 (AlertService.mk 2 ∅)
                  sample_world_two eq_refl Hreach)).
Defined.

(** *** Ownership *)

Lemma Alert_validate_fields m a :
  Alert_validate m = Some a →
  m !! "id" = Some (JStr (Alert.id a)) ∧
  m !! "user_id" = Some (JStr (Alert.user_id a)).
Proof.
  unfold Alert_validate. intros H.
  destruct (m !! "id") as [[]|]; try done.
  destruct (m !! "user_id") as [[]|]; try done.
  cbn in H. repeat (simplify_option_eq || case_match); done.
Qed.

Lemma to_alerts_elem l la x :
  to_alerts l = inr la → x ∈ la → ∃ m, JObj m ∈ l ∧ Alert_validate m = Some x.
Proof.
  revert la. induction l as [|a l IH]; intros la; cbn.
  - intros [= <-] Hx. by apply elem_of_nil in Hx.
  - destruct (_to_alert a) as [e|y] eqn:Ha; [done|]. cbn.
    destruct (to_alerts l) as [e|ys]; [done|]. cbn. intros [= <-] Hx.
    apply elem_of_cons in Hx as [->|Hx].
    + unfold _to_alert in Ha. destruct a; try done.
      destruct (Alert_validate fields) eqn:Hv; [|done]. injection Ha as ->.
      exists fields. split; [left|done].
    + destruct (IH ys eq_refl Hx) as (m & Hm & Hv). exists m. split; [by right|done].
Qed.

Lemma owner_ids_elem i l :
  i ∈ owner_ids (JArr l) ↔ ∃ m, JObj m ∈ l ∧ m !! "id" = Some (JStr i).
Proof.
  cbn. rewrite list_elem_of_omap. split.
  - intros (a & Ha & Hid). destruct a; try done. exists fields. split; [done|].
    cbn in Hid. by destruct (fields !! "id") as [[]|]; simplify_eq.
  - intros (m & Hm & Hid). exists (JObj m). split; [done|]. cbn. by rewrite Hid.
Qed.

Lemma new_alert_dict_fields u data i now d :
  new_alert_dict u data i now = inr d →
  d !! "user_id" = Some (JStr u) ∧ d !! "id" = Some (JStr i).
Proof.
  unfold new_alert_dict. destruct (data !! "alert_type"); [|done].
  intros [= <-]. cbn. split.
  - rewrite lookup_insert_ne by done. by rewrite lookup_insert_eq.
  - by rewrite lookup_insert_eq.
Qed.

Lemma without_id_elem l i filtered a :
  without_id l i = inr filtered → a ∈ filtered → a ∈ l.
Proof.
  revert filtered. induction l as [|b l IH]; intros filtered; cbn.
  - intros [= <-] Ha. by apply elem_of_nil in Ha.
  - destruct (py_getitem b "id") as [e|v]; [done|]. cbn.
    destruct (without_id l i) as [e|rest]; [done|]. cbn. intros [= <-].
    destruct (py_ne_str v i).
    + intros [->|Ha]%elem_of_cons; [left|right; by apply (IH rest)].
    + intros Ha. right. by apply (IH rest).
Qed.

(** Deleting an id that no record of the list carries keeps the list. *)
Lemma without_id_absent u l i :
  Forall (owned_by u) l → i ∉ owner_ids (JArr l) → without_id l i = inr l.
Proof.
  induction 1 as [|a l (m & j & -> & _ & Hj) _ IH]; [done|].
  intros Hi. cbn. rewrite Hj. cbn.
  rewrite IH; cbn.
  - destruct (String.eqb_spec j i) as [->|_]; [|done].
    destruct Hi. apply owner_ids_elem. exists m. split; [left|done].
  - intros Hin. apply Hi. apply owner_ids_elem.
    apply owner_ids_elem in Hin as (m' & Hm' & Hid). exists m'. split; [by right|done].
Qed.

Lemma get_user_alerts_owned s u :
  well_owned s → ∃ l, _get_user_alerts s u = JArr l ∧ Forall (owned_by u) l.
Proof.
  intros Hs. unfold _get_user_alerts.
  destruct (_alerts s !! u) as [v|] eqn:Hu; cbn.
  - by apply Hs in Hu.
  - exists []. by split.
Qed.

(** Replacing the entry of [u] by records it owns, none of whose ids is
    stored under another owner, keeps the store isolated. *)
Lemma isolated_insert s u l' :
  isolated s →
  Forall (owned_by u) l' →
  (∀ j u2 v2, j ∈ owner_ids (JArr l') → u2 ≠ u → _alerts s !! u2 = Some v2 →
     j ∉ owner_ids v2) →
  isolated (set_alerts s (<[u := JArr l']> (_alerts s))).
Proof.
  intros [Hown Hids] Hl' Hfresh. split.
  - intros u1 v1. cbn. rewrite lookup_insert. case_decide as Hu.
    + intros [= <-]. subst u1. eauto.
    + apply Hown.
  - intros u1 u2 v1 v2 j Hne. cbn. rewrite !lookup_insert.
    repeat case_decide; subst; try done.
    + intros [= <-] H2 Hj. by apply (Hfresh j u2 v2).
    + intros H1 [= <-] Hj Hj'. by apply (Hfresh j u1 v1).
    + by apply Hids.
Qed.

Lemma create_alert_isolated w u data i now io :
  isolated (self w) → id_unused i (self w) →
  isolated (self (create_alert w u data i now io).2).
Proof.
  intros Hiso Hfresh.
  destruct (get_user_alerts_owned (self w) u (proj1 Hiso)) as (l & Hl & Hown).
  destruct (Z.le_gt_cases (_max_per_user (self w)) (Z.of_nat (length l))) as [Hge|Hlt].
  { by rewrite (create_alert_full w u data i now io l). }
  destruct (new_alert_dict u data i now) as [e|d] eqn:Hd.
  { unfold create_alert. rewrite Hl. cbn [py_len].
    destruct (_ <=? _); [done|]. by rewrite Hd. }
  rewrite (create_alert_appends w u data i now io l d) by (done || lia).
  cbv zeta. destruct (_save_alerts _ _ _) as [[e|[]] d'].
  all: cbn [snd self]; apply isolated_insert; try done.
  all: try (apply Forall_app; split; [done|]; apply Forall_singleton;
            destruct (new_alert_dict_fields _ _ _ _ _ Hd) as [? ?]; by eexists _, _).
  all: intros j u2 v2 Hj Hne H2.
  all: apply owner_ids_elem in Hj as (m & [Hm|Hm]%elem_of_app & Hid).
  all: try (apply list_elem_of_singleton in Hm as [= <-];
            destruct (new_alert_dict_fields _ _ _ _ _ Hd) as [_ Hi];
            rewrite Hi in Hid; injection Hid as <-; by apply (Hfresh u2 v2)).
  all: unfold _get_user_alerts in Hl.
  all: destruct (_alerts (self w) !! u) as [v|] eqn:Hu; cbn in Hl;
         [subst v|injection Hl as <-; by apply elem_of_nil in Hm].
  all: apply (proj2 Hiso u u2 (JArr l) v2 j); try done.
  all: apply owner_ids_elem; eauto.
Qed.

Lemma delete_alert_isolated w u i io :
  isolated (self w) → isolated (self (delete_alert w u i io).2).
Proof.
  intros Hiso.
  destruct (get_user_alerts_owned (self w) u (proj1 Hiso)) as (l & Hl & Hown).
  destruct (without_id l i) as [e|filtered] eqn:Hf.
  { unfold delete_alert. rewrite Hl. cbn. by rewrite Hf. }
  rewrite (delete_alert_list w u i io l filtered) by done.
  destruct (_ =? _)%nat; [done|]. cbv zeta.
  assert (Hsub : ∀ a, a ∈ filtered → a ∈ l)
    by (intros a; by apply (without_id_elem l i)).
  destruct (_save_alerts _ _ _) as [[e|[]] d'].
  all: cbn [snd self]; apply isolated_insert; try done.
  all: try (apply Forall_forall; intros a Ha; rewrite Forall_forall in Hown; auto).
  all: intros j u2 v2 Hj Hne H2.
  all: apply owner_ids_elem in Hj as (m & Hm & Hid).
  all: unfold _get_user_alerts in Hl.
  all: destruct (_alerts (self w) !! u) as [v|] eqn:Hu; cbn in Hl;
         [subst v|injection Hl as <-; apply Hsub in Hm; by apply elem_of_nil in Hm].
  all: apply (proj2 Hiso u u2 (JArr l) v2 j); try done.
  all: apply owner_ids_elem; eauto.
Qed.

Lemma fresh_world_isolated N : isolated (self (fresh_world N)).
Proof. split; intros ?; intros; by rewrite ?lookup_empty in *. Qed.

Lemma reaches_isolated N w :
  reaches fresh_id (fresh_world N) w → isolated (self w).
Proof.
  induction 1 as [|w r _ IH Hr]; [apply fresh_world_isolated|].
  destruct r; cbn in *; [by apply create_alert_isolated|by apply delete_alert_isolated].
Qed.

Lemma list_alerts_elem s u la x :
  well_owned s → list_alerts s u = inr la → x ∈ la →
  Alert.user_id x = u ∧ Alert.id x ∈ owner_ids (_get_user_alerts s u).
Proof.
  intros Hs Hla Hx. unfold list_alerts in Hla.
  destruct (get_user_alerts_owned s u Hs) as (l & Hl & Hown).
  rewrite Hl in *. cbn in Hla.
  destruct (to_alerts_elem l la x Hla Hx) as (m & Hm & Hv).
  apply Alert_validate_fields in Hv as [Hid Hu].
  rewrite Forall_forall in Hown.
  destruct (Hown _ Hm) as (m' & j & [= <-] & Hu' & _).
  split; [congruence|]. apply owner_ids_elem. eauto.
Qed.

Lemma owner_ids_stored s u i :
  i ∈ owner_ids (_get_user_alerts s u) →
  ∃ v, _alerts s !! u = Some v ∧ i ∈ owner_ids v.
Proof.
  unfold _get_user_alerts. destruct (_alerts s !! u) as [v|]; cbn; [eauto|].
  by intros ?%elem_of_nil.
Qed.

(** In an isolated store an id stored under one owner is stored under no
    other. *)
Lemma isolated_ids s A B i :
  isolated s → A ≠ B →
  i ∈ owner_ids (_get_user_alerts s A) → i ∉ owner_ids (_get_user_alerts s B).
Proof.
  intros [_ Hids] Hne (v1 & H1 & Hi1)%owner_ids_stored (v2 & H2 & Hi2)%owner_ids_stored.
  by apply (Hids A B v1 v2 i).
Qed.

(** C3: in every store reached from an empty one by creates (each given
    an unused id) and deletes, for distinct owners A and B: the alerts
    listed for A belong to A and none of them is listed for B, nor does
    any alert of B carry the id of one of them; and a delete by B of an id
    stored under A raises not-found and changes nothing. *)
Theorem ownership_isolation (N : Z) (w : world) (A B : string) :
  reaches fresh_id (fresh_world N) w →
  A ≠ B →
  (∀ la lb, list_alerts (self w) A = inr la → list_alerts (self w) B = inr lb →
     ∀ x, x ∈ la →
       Alert.user_id x = A ∧ (x ∉ lb) ∧ (∀ y, y ∈ lb → Alert.id y ≠ Alert.id x)) ∧
  (∀ la x, list_alerts (self w) A = inr la → x ∈ la →
     Alert.id x ∈ owner_ids (_get_user_alerts (self w) A)) ∧
  (∀ i io, i ∈ owner_ids (_get_user_alerts (self w) A) →
     delete_alert w B i io = (inl (AlertNotFoundError i), w)).
Proof.
  intros Hreach Hne. pose proof (reaches_isolated N w Hreach) as Hiso.
  split_and!.
  - intros la lb Hla Hlb x Hx.
    destruct (list_alerts_elem _ _ _ _ (proj1 Hiso) Hla Hx) as [Hu Hi].
    split_and!; [done| |].
    + intros Hx'. destruct (list_alerts_elem _ _ _ _ (proj1 Hiso) Hlb Hx') as [Hu' _].
      congruence.
    + intros y Hy Heq.
      destruct (list_alerts_elem _ _ _ _ (proj1 Hiso) Hlb Hy) as [_ Hi'].
      rewrite Heq in Hi'. by apply (isolated_ids (self w) A B (Alert.id x)).
  - intros la x Hla Hx. by apply (list_alerts_elem _ _ _ _ (proj1 Hiso) Hla Hx).
  - intros i io Hi.
    destruct (get_user_alerts_owned (self w) B (proj1 Hiso)) as (l & Hl & Hown).
    assert (Hi' : i ∉ owner_ids (JArr l)).
    { rewrite <-Hl. by apply (isolated_ids (self w) A B). }
    rewrite (delete_alert_list w B i io l l Hl (without_id_absent B l i Hown Hi')).
    by rewrite Nat.eqb_refl.
Qed.

Lemma ownership_isolation_witness :
  reaches fresh_id (fresh_world 2) sample_world_two ∧
  "user1" ≠ "user2" ∧
  "a-1" ∈ owner_ids (_get_user_alerts (self sample_world_two) "user1") ∧
  delete_alert sample_world_two "user2" "a-1" NoFault
    = (inl (AlertNotFoundError "a-1"), sample_world_two).
Proof.
  assert (Hreach : reaches fresh_id (fresh_world 2) sample_world_two).
  { apply (reaches_step fresh_id (fresh_world 2) sample_world
             (Create "user2" sample_payload "b-1" sample_now NoFault)).
    - apply (reaches_step fresh_id (fresh_world 2) (fresh_world 2)
               (Create "user1" sample_payload "a-1" sample_now NoFault));
        [apply reaches_here|apply map_Forall_empty].
    - unfold fresh_id, id_unused. compute_done. }
  assert (Hne : "user1" ≠ "user2") by discriminate.
  assert (Hid : "a-1" ∈ owner_ids (_get_user_alerts (self sample_world_two) "user1")).
  { compute_done. }
  destruct (ownership_isolation 2 sample_world_two "user1" "user2" Hreach Hne)
    as (_ & _ & Hdel).
  split_and!; [exact Hreach|exact Hne|exact Hid|exact (Hdel "a-1" NoFault Hid)].
Defined.

(** ** Batch evaluation *)

Lemma to_alerts_length l la : to_alerts l = inr la → length la = length l.
Proof.
  revert la. induction l as [|a l IH]; intros la; cbn.
  - by intros [= <-].
  - destruct (_to_alert a); [done|]. cbn.
    destruct (to_alerts l) as [e|xs]; [done|]. cbn.
    intros [= <-]. cbn. by rewrite (IH xs).
Qed.

Lemma chars_length s : length (chars s) = String.length s.
Proof. induction s; cbn; congruence. Qed.

(** Iterating over a value yields as many items as its length. *)
Lemma py_iter_len v items : py_iter v = inr items → py_len v = inr (length items).
Proof.
  destruct v; try done; cbn; intros [= <-].
  - by rewrite chars_length.
  - done.
  - by rewrite !length_fmap, length_map_to_list.
Qed.









(** * Further properties of the store *)

(** ** What a call can do to the world *)

Lemma world_eta w : World (self w) (dir w) = w.
Proof. by destruct w. Qed.

Lemma py_len_error v e : py_len v = inl e → e = TypeError.
Proof. destruct v; cbn; congruence. Qed.

Lemma new_alert_dict_error u data i now e :
  new_alert_dict u data i now = inl e → e = KeyError "alert_type".
Proof. unfold new_alert_dict. destruct (data !! "alert_type"); congruence. Qed.

Lemma save_result io alerts d :
  _save_alerts io alerts d =
  match io with
  | NoFault => (inr (), Directory (Some (Json (JObj alerts))) (tmp_files d))
  | _ => (inl OSError, d)
  end.
Proof. by destruct io, d. Qed.

(** [create_alert], by cases: either the world is left as it was, with
    one of four exceptions raised before anything is written, or the
    owner's entry was a list under the quota and the new record has been
    appended to it; then the save decides. *)
Lemma create_alert_cases w u data i now io :
  (create_alert w u data i now io).2 = w ∧
  (∃ e, (create_alert w u data i now io).1 = inl e ∧
        (e = TypeError ∨ e = AttributeError ∨ e = KeyError "alert_type" ∨
         ∃ n, e = AlertLimitExceededError n (_max_per_user (self w))))
  ∨
  ∃ l d,
    _get_user_alerts (self w) u = JArr l ∧
    Z.of_nat (length l) < _max_per_user (self w) ∧
    new_alert_dict u data i now = inr d ∧
    create_alert w u data i now io =
      match io with
      | NoFault =>
          (_to_alert (JObj d),
           World (set_alerts (self w) (<[u := JArr (l ++ [JObj d])]> (_alerts (self w))))
             (Directory
                (Some (Json (JObj (<[u := JArr (l ++ [JObj d])]> (_alerts (self w))))))
                (tmp_files (dir w))))
      | _ =>
          (inl OSError,
           World (set_alerts (self w) (<[u := JArr (l ++ [JObj d])]> (_alerts (self w))))
             (dir w))
      end.
Proof.
  destruct (py_len (_get_user_alerts (self w) u)) as [e|n] eqn:Hlen.
  { left. unfold create_alert. rewrite Hlen. apply py_len_error in Hlen as ->. eauto 10. }
  destruct (Z.leb_spec (_max_per_user (self w)) (Z.of_nat n)) as [Hge|Hlt].
  { left. unfold create_alert. rewrite Hlen.
    destruct (Z.leb_spec (_max_per_user (self w)) (Z.of_nat n)); [|lia]. eauto 10. }
  destruct (new_alert_dict u data i now) as [e|d] eqn:Hd.
  { left. unfold create_alert. rewrite Hlen.
    destruct (Z.leb_spec (_max_per_user (self w)) (Z.of_nat n)); [lia|].
    rewrite Hd. apply new_alert_dict_error in Hd as ->. eauto 10. }
  destruct (_get_user_alerts (self w) u) as [| | | |t|l|m] eqn:Hget; try done.
  - left. unfold create_alert. rewrite Hget, Hlen.
    destruct (Z.leb_spec (_max_per_user (self w)) (Z.of_nat n)); [lia|].
    rewrite Hd. unfold _get_user_alerts in Hget.
    destruct (_alerts (self w) !! u) as [v|] eqn:Hu; cbn in Hget; [subst v|done].
    rewrite Hu. cbn. rewrite set_alerts_same, world_eta. eauto 10.
  - right. exists l, d. injection Hlen as <-.
    rewrite (create_alert_appends w u data i now io l d) by done.
    cbv zeta. rewrite save_result. by destruct io.
  - left. unfold create_alert. rewrite Hget, Hlen.
    destruct (Z.leb_spec (_max_per_user (self w)) (Z.of_nat n)); [lia|].
    rewrite Hd. unfold _get_user_alerts in Hget.
    destruct (_alerts (self w) !! u) as [v|] eqn:Hu; cbn in Hget; [subst v|done].
    rewrite Hu. cbn. rewrite set_alerts_same, world_eta. eauto 10.
Qed.

Lemma py_getitem_error v key e :
  py_getitem v key = inl e → e = TypeError ∨ e = KeyError key.
Proof.
  destruct v; cbn; try (intros [= <-]; by left).
  destruct (_ !! _); [done|]. intros [= <-]. by right.
Qed.

Lemma without_id_error items i e :
  without_id items i = inl e → e = TypeError ∨ e = KeyError "id".
Proof.
  induction items as [|a items IH]; cbn; [done|].
  destruct (py_getitem a "id") as [e'|v] eqn:Ha; cbn.
  - intros [= <-]. by apply py_getitem_error in Ha.
  - destruct (without_id items i); cbn; [|done]. intros [= <-]. by apply IH.
Qed.

Lemma without_id_length items i filtered :
  without_id items i = inr filtered → (length filtered ≤ length items)%nat.
Proof.
  revert filtered. induction items as [|a items IH]; intros filtered; cbn.
  - by intros [= <-].
  - destruct (py_getitem a "id"); cbn; [done|].
    destruct (without_id items i) as [|rest]; cbn; [done|]. intros [= <-].
    specialize (IH rest eq_refl). destruct (py_ne_str _ _); cbn; lia.
Qed.

(** [delete_alert], by cases: either the world is left as it was, with
    an exception raised before anything is written, or some record carried
    the id and the entry has been replaced by the remaining records; then
    the save decides. *)
Lemma delete_alert_cases w u i io :
  (delete_alert w u i io).2 = w ∧
  (∃ e, (delete_alert w u i io).1 = inl e ∧
        (e = TypeError ∨ e = KeyError "id" ∨ e = AlertNotFoundError i))
  ∨
  ∃ items filtered,
    py_iter (_get_user_alerts (self w) u) = inr items ∧
    without_id items i = inr filtered ∧
    (length filtered < length items)%nat ∧
    delete_alert w u i io =
      match io with
      | NoFault =>
          (inr (),
           World (set_alerts (self w) (<[u := JArr filtered]> (_alerts (self w))))
             (Directory (Some (Json (JObj (<[u := JArr filtered]> (_alerts (self w))))))
                (tmp_files (dir w))))
      | _ =>
          (inl OSError,
           World (set_alerts (self w) (<[u := JArr filtered]> (_alerts (self w))))
             (dir w))
      end.
Proof.
  unfold delete_alert.
  destruct (py_len (_get_user_alerts (self w) u)) as [e|n] eqn:Hlen.
  { left. apply py_len_error in Hlen as ->. eauto 10. }
  destruct (py_iter (_get_user_alerts (self w) u)) as [e|items] eqn:Hit.
  { destruct (_get_user_alerts (self w) u); done. }
  cbn. rewrite (py_iter_len _ _ Hit) in Hlen. injection Hlen as <-.
  destruct (without_id items i) as [e|filtered] eqn:Hf.
  { left. apply without_id_error in Hf as [-> | ->]; eauto 10. }
  destruct (Nat.eqb_spec (length filtered) (length items)) as [Heq|Hne].
  { left. eauto 10. }
  right. exists items, filtered. pose proof (without_id_length _ _ _ Hf).
  split_and!; [done|done|lia|]. rewrite save_result. by destruct io.
Qed.

(** X1: whatever the file system does during a create or a delete, the
    call leaves no temporary file behind, and the data file is afterwards
    either exactly what it was or the complete dump of the store now in
    memory; when the file system failed, the whole directory is as it
    was. *)
Theorem call_leaves_file_whole (w : world) (r : request) :
  tmp_files (dir (step w r)) = tmp_files (dir w) ∧
  (io_of r ≠ NoFault → dir (step w r) = dir w) ∧
  (data_file (dir (step w r)) = data_file (dir w) ∨
   data_file (dir (step w r)) = Some (Json (JObj (_alerts (self (step w r)))))).
Proof.
  destruct r as [u data i now io|u i io]; cbn [step io_of].
  - destruct (create_alert_cases w u data i now io)
      as [[-> _]|(l & d & _ & _ & _ & ->)]; [by auto|].
    destruct io; cbn; split_and!; auto; done.
  - destruct (delete_alert_cases w u i io)
      as [[-> _]|(items & filtered & _ & _ & _ & ->)]; [by auto|].
    destruct io; cbn; split_and!; auto; done.
Qed.

Lemma call_leaves_file_whole_witness :
  dir (step sample_world
         (Create "user1" sample_payload "a-2" sample_now ReplaceFails))
    = dir sample_world ∧
  data_file (dir (step sample_world (Delete "user1" "a-1" NoFault)))
    = Some (Json (JObj {["user1" := JArr []]})).
Proof.
  destruct (call_leaves_file_whole sample_world
              (Create "user1" sample_payload "a-2" sample_now ReplaceFails))
    as (_ & Hfault & _).
  split; [apply Hfault; discriminate|reflexivity].
Defined.




(** X3: a call made for one owner leaves every other owner's entry, and so
    every other owner's listing, as it was, whether the call returns or
    raises and whatever the file system does. *)
Theorem other_owners_untouched (w : world) (r : request) (u : string) :
  u ≠ request_owner r →
  _alerts (self (step w r)) !! u = _alerts (self w) !! u ∧
  list_alerts (self (step w r)) u = list_alerts (self w) u.
Proof.
  intros Hne.
  assert (Hsame : _alerts (self (step w r)) !! u = _alerts (self w) !! u).
  { destruct r as [u' data i now io|u' i io]; cbn [step request_owner] in *.
    - destruct (create_alert_cases w u' data i now io)
        as [[-> _]|(l & d & _ & _ & _ & ->)]; [done|].
      destruct io; cbn; by rewrite lookup_insert_ne.
    - destruct (delete_alert_cases w u' i io)
        as [[-> _]|(items & filtered & _ & _ & _ & ->)]; [done|].
      destruct io; cbn; by rewrite lookup_insert_ne. }
  split; [done|]. unfold list_alerts, _get_user_alerts. by rewrite Hsame.
Qed.

Lemma other_owners_untouched_witness :
  "user1" ≠ request_owner (Delete "user2" "b-1" WriteFails) ∧
  list_alerts (self (step sample_world_two (Delete "user2" "b-1" WriteFails))) "user1"
    = list_alerts (self sample_world_two) "user1".
Proof.
  assert (Hne : "user1" ≠ request_owner (Delete "user2" "b-1" WriteFails))
    by discriminate.
  split; [exact Hne|].
  exact (proj2 (other_owners_untouched sample_world_two
                  (Delete "user2" "b-1" WriteFails) "user1" Hne)).
Defined.

(** ** Restart under arbitrary faults *)

Lemma init_data_file d d' N :
  data_file d = data_file d' → AlertService_init d N = AlertService_init d' N.
Proof. intros H. unfold AlertService_init, _load_alerts. by rewrite H. Qed.

Lemma init_sized d N s : AlertService_init d N = inr s → all_sized (_alerts s).
Proof.
  intros H. apply (synced_sized (World s d)). unfold synced. cbn.
  by rewrite (init_max _ _ _ H).
Qed.

(** Every call keeps the entries of the store sized. *)
Lemma step_all_sized w r :
  all_sized (_alerts (self w)) → all_sized (_alerts (self (step w r))).
Proof.
  intros Hs. destruct r as [u data i now io|u i io]; cbn [step].
  - destruct (create_alert_cases w u data i now io)
      as [[-> _]|(l & d & _ & _ & _ & ->)]; [done|].
    destruct io; cbn; by apply all_sized_insert_array.
  - destruct (delete_alert_cases w u i io)
      as [[-> _]|(items & filtered & _ & _ & _ & ->)]; [done|].
    destruct io; cbn; by apply all_sized_insert_array.
Qed.

Lemma reaches_any_sized d0 N s0 w :
  AlertService_init d0 N = inr s0 →
  reaches any_request (World s0 d0) w →
  all_sized (_alerts (self w)) ∧ _max_per_user (self w) = N.
Proof.
  intros Hinit. induction 1 as [|w r _ [IH HN] _].
  - split; [by apply (init_sized d0 N)|by apply (init_max d0)].
  - split; [by apply step_all_sized|by rewrite step_max].
Qed.

(** X4: once a service has been constructed, no sequence of creates and
    deletes, with the file system failing wherever it likes, leaves a
    directory from which the service cannot be constructed again, and no
    temporary file accumulates. *)
Theorem restart_never_fails (d0 : directory) (N : Z) (s0 : AlertService.t)
    (w : world) :
  AlertService_init d0 N = inr s0 →
  reaches any_request (World s0 d0) w →
  (∃ s, AlertService_init (dir w) N = inr s) ∧
  tmp_files (dir w) = tmp_files d0.
Proof.
  intros Hinit Hreach.
  induction Hreach as [|w r Hreach [[s IH] Htmp] _]; [by eauto|].
  destruct (reaches_any_sized d0 N s0 w Hinit Hreach) as [Hs HN].
  destruct (call_leaves_file_whole w r) as (Ht & _ & [Hf|Hf]).
  - split; [|congruence]. exists s. rewrite <-IH. by apply init_data_file.
  - split; [|congruence]. eexists. apply (init_mapping _ _ _ Hf).
    by apply step_all_sized.
Qed.

Lemma restart_never_fails_witness :
  AlertService_init (Directory None []) 2 = inr (AlertService.mk 2 ∅) ∧
  reaches any_request (fresh_world 2)
    (step sample_world (Create "user1" sample_payload "a-2" sample_now WriteFails)) ∧
  ∃ s, AlertService_init
         (dir (step sample_world
                 (Create "user1" sample_payload "a-2" sample_now WriteFails))) 2
       = inr s.
Proof.
  assert (Hreach : reaches any_request (fresh_world 2)
            (step sample_world
               (Create "user1" sample_payload "a-2" sample_now WriteFails))).
  { apply reaches_step; [|exact I].
    apply (reaches_step any_request (fresh_world 2) (fresh_world 2)
             (Create "user1" sample_payload "a-1" sample_now NoFault));
      [apply reaches_here|exact I]. }
  split_and!; [reflexivity|exact Hreach|].
  exact (proj1 (restart_never_fails (Directory None []) 2 (AlertService.mk 2 ∅) _
                  eq_refl Hreach)).
Defined.

(** X5: a create or a delete that returns has written the whole store:
    whatever saves failed before it, a restart right after it yields
    exactly the store in memory. *)
Theorem returning_call_resyncs (d0 : directory) (N : Z) (s0 : AlertService.t)
    (w : world) :
  AlertService_init d0 N = inr s0 →
  reaches any_request (World s0 d0) w →
  (∀ u data i now io a w',
     create_alert w u data i now io = (inr a, w') →
     AlertService_init (dir w') N = inr (self w')) ∧
  (∀ u i io w',
     delete_alert w u i io = (inr (), w') →
     AlertService_init (dir w') N = inr (self w')).
Proof.
  intros Hinit Hreach.
  destruct (reaches_any_sized d0 N s0 w Hinit Hreach) as [Hs HN]. split.
  - intros u data i now io a w' Hc.
    destruct (create_alert_cases w u data i now io)
      as [[_ (e & He & _)]|(l & d & _ & _ & _ & Heq)].
    { rewrite Hc in He. done. }
    rewrite Heq in Hc. destruct io; try done. injection Hc as _ <-. cbn.
    rewrite <-HN. apply (synced_after_save (self w)).
    by apply all_sized_insert_array.
  - intros u i io w' Hd.
    destruct (delete_alert_cases w u i io)
      as [[_ (e & He & _)]|(items & filtered & _ & _ & _ & Heq)].
    { rewrite Hd in He. done. }
    rewrite Heq in Hd. destruct io; try done. injection Hd as <-. cbn.
    rewrite <-HN. apply (synced_after_save (self w)).
    by apply all_sized_insert_array.
Qed.

Lemma returning_call_resyncs_witness :
  let unsaved :=
    step sample_world (Create "user1" sample_payload "a-2" sample_now WriteFails) in
  let w' := (delete_alert unsaved "user1" "a-1" NoFault).2 in
  AlertService_init (dir unsaved) 2 ≠ inr (self unsaved) ∧
  delete_alert unsaved "user1" "a-1" NoFault = (inr (), w') ∧
  AlertService_init (dir w') 2 = inr (self w').
Proof.
  assert (Hreach : reaches any_request (fresh_world 2)
            (step sample_world
               (Create "user1" sample_payload "a-2" sample_now WriteFails))).
  { apply reaches_step; [|exact I].
    apply (reaches_step any_request (fresh_world 2) (fresh_world 2)
             (Create "user1" sample_payload "a-1" sample_now NoFault));
      [apply reaches_here|exact I]. }
  destruct (returning_call_resyncs (Directory None []) 2 (AlertService.mk 2 ∅) _
              eq_refl Hreach) as [_ Hdelete].
  split_and!; [|reflexivity|exact (Hdelete "user1" "a-1" NoFault _ eq_refl)].
  intros H. apply (f_equal (λ r, match r with
                                 | inr s => py_len (_get_user_alerts s "user1")
                                 | inl _ => inl OSError
                                 end)) in H.
  vm_compute in H. discriminate.
Defined.

(** ** Construction *)




(** ** Quota *)

Lemma step_within_quota w r :
  within_quota (self w) → within_quota (self (step w r)).
Proof.
  intros Hq. destruct r as [u data i now io|u i io]; cbn [step].
  - destruct (create_alert_cases w u data i now io)
      as [[-> _]|(l & d & _ & Hlt & _ & ->)]; [done|].
    assert (Hq' : within_quota
              (set_alerts (self w) (<[u := JArr (l ++ [JObj d])]> (_alerts (self w))))).
    { intros u' v. cbn. rewrite lookup_insert. case_decide.
      - intros [= <-]. eexists. split; [done|]. rewrite length_app. cbn. lia.
      - apply Hq. }
    by destruct io.
  - destruct (delete_alert_cases w u i io)
      as [[-> _]|(items & filtered & Hit & _ & Hlen & ->)]; [done|].
    assert (Hq' : within_quota
              (set_alerts (self w) (<[u := JArr filtered]> (_alerts (self w))))).
    { intros u' v. cbn. rewrite lookup_insert. case_decide; [|apply Hq].
      intros [= <-]. eexists. split; [done|].
      unfold _get_user_alerts in Hit.
      destruct (_alerts (self w) !! u) as [v|] eqn:Hu; cbn in Hit.
      - destruct (Hq u v Hu) as (l & -> & Hl). injection Hit as <-. lia.
      - injection Hit as <-. cbn in Hlen. lia. }
    by destruct io.
Qed.

(** X7: starting from an empty store, no sequence of creates and deletes,
    failed saves included, brings an owner above the configured maximum:
    every owner's entry is a list of at most [max_per_user] records, and a
    listing is never longer than that. *)
Theorem quota_never_exceeded (N : Z) (w : world) (u : string) :
  reaches any_request (fresh_world N) w →
  (∃ l, _get_user_alerts (self w) u = JArr l ∧ Z.of_nat (length l) ≤ Z.max 0 N) ∧
  (∀ la, list_alerts (self w) u = inr la → Z.of_nat (length la) ≤ Z.max 0 N).
Proof.
  intros Hreach.
  assert (within_quota (self w) ∧ _max_per_user (self w) = N) as [Hq HN].
  { induction Hreach as [|w r _ [IH HN] _].
    - split; [|done]. intros u' v. cbn. by rewrite lookup_empty.
    - split; [by apply step_within_quota|by rewrite step_max]. }
  assert (Hl : ∃ l, _get_user_alerts (self w) u = JArr l ∧
                    Z.of_nat (length l) ≤ Z.max 0 N).
  { unfold _get_user_alerts. destruct (_alerts (self w) !! u) as [v|] eqn:Hu; cbn.
    - destruct (Hq u v Hu) as (l & -> & Hl). exists l. split; [done|lia].
    - exists []. split; [done|]. cbn. lia. }
  split; [done|]. intros la Hla. destruct Hl as (l & Hl & Hlen).
  unfold list_alerts in Hla. rewrite Hl in Hla. cbn in Hla.
  by rewrite (to_alerts_length l la Hla).
Qed.

Lemma quota_never_exceeded_witness :
  reaches any_request (fresh_world 2) sample_world_two ∧
  ∃ la, list_alerts (self sample_world_two) "user1" = inr la ∧
        Z.of_nat (length la) ≤ 2.
Proof.
  assert (Hreach : reaches any_request (fresh_world 2) sample_world_two).
  { apply (reaches_step any_request (fresh_world 2) sample_world
             (Create "user2" sample_payload "b-1" sample_now NoFault)); [|exact I].
    apply (reaches_step any_request (fresh_world 2) (fresh_world 2)
             (Create "user1" sample_payload "a-1" sample_now NoFault));
      [apply reaches_here|exact I]. }
  split; [exact Hreach|].
  eexists. split; [reflexivity|].
  exact (proj2 (quota_never_exceeded 2 sample_world_two "user1" Hreach) _ eq_refl).
Defined.

(** ** An owner without an entry *)

(** X8: for an owner the store has no entry for, the listing is empty,
    every delete raises not-found and changes nothing, whatever the file
    system would do, and the batch evaluation returns no result and a
    summary of zeros, whatever the collaborators are. *)
Theorem unknown_owner {I} (w : world) (u : string) :
  _alerts (self w) !! u = None →
  list_alerts (self w) u = inr [] ∧
  (∀ i io, delete_alert w u i io = (inl (AlertNotFoundError i), w)) ∧
  (∀ (c : collaborators I) now holdings,
     check_triggered_alerts (self w) u c now holdings
       = inr ([], TriggeredAlertsSummary.mk 0 0 0 0)).
Proof.
  intros Hu.
  assert (Hget : _get_user_alerts (self w) u = JArr []).
  { unfold _get_user_alerts. by rewrite Hu. }
  split_and!.
  - unfold list_alerts. by rewrite Hget.
  - intros i io. by rewrite (delete_alert_list w u i io [] [] Hget eq_refl).
  - intros c now holdings. unfold check_triggered_alerts, list_alerts.
    by rewrite Hget.
Qed.

Lemma unknown_owner_witness :
  _alerts (self sample_world) !! "user2" = None ∧
  list_alerts (self sample_world) "user2" = inr [] ∧
  delete_alert sample_world "user2" "a-1" NoFault
    = (inl (AlertNotFoundError "a-1"), sample_world) ∧
  check_triggered_alerts (self sample_world) "user2" sample_market sample_now None
    = inr ([], TriggeredAlertsSummary.mk 0 0 0 0).
Proof.
  assert (Hu : _alerts (self sample_world) !! "user2" = None) by reflexivity.
  destruct (unknown_owner (I:=()) sample_world "user2" Hu) as (Hlist & Hdel & Hbatch).
  split_and!; [exact Hu|exact Hlist|exact (Hdel "a-1" NoFault)|
               exact (Hbatch sample_market sample_now None)].
Defined.

(** ** Creating and listing *)

Lemma to_alerts_app l1 l2 :
  to_alerts (l1 ++ l2) =
  la1 ← to_alerts l1; la2 ← to_alerts l2; mret (la1 ++ la2)%list.
Proof.
  induction l1 as [|a l1 IH]; cbn.
  - by destruct (to_alerts l2).
  - destruct (_to_alert a); cbn; [done|]. rewrite IH.
    destruct (to_alerts l1); cbn; [done|]. by destruct (to_alerts l2).
Qed.




Lemma new_alert_dict_lookups u data i now d :
  new_alert_dict u data i now = inr d →
  d !! "created_at" = Some (JStr now) ∧
  d !! "ticker" = Some (dict_get data "ticker") ∧
  d !! "target_price" = Some (dict_get data "target_price") ∧
  d !! "percentage_threshold" = Some (dict_get data "percentage_threshold") ∧
  d !! "baseline_value" = Some (dict_get data "baseline_value") ∧
  d !! "alert_type" = data !! "alert_type".
Proof.
  unfold new_alert_dict. destruct (data !! "alert_type"); [|done].
  intros [= <-]. cbn.
  split_and!; repeat (rewrite lookup_insert_ne by done); by rewrite lookup_insert_eq.
Qed.



(** X10: the record is validated only after it has been stored and
    saved.  A payload whose "alert_type" is a string that names none of
    the three types makes create raise the validation error, yet the
    record is in the store and in the data file; from then on listing that
    owner, and so the owner's batch evaluation, raises. *)
Theorem unknown_alert_type_is_stored {I} (w : world) (user_id : string)
    (alert_data : gmap string json) (new_id now type_name : string)
    (l : list json) :
  _get_user_alerts (self w) user_id = JArr l →
  Z.of_nat (length l) < _max_per_user (self w) →
  alert_data !! "alert_type" = Some (JStr type_name) →
  AlertType_of type_name = None →
  ∃ d w',
    create_alert w user_id alert_data new_id now NoFault = (inl ValidationError, w') ∧
    _get_user_alerts (self w') user_id = JArr (l ++ [JObj d])%list ∧
    data_file (dir w') = Some (Json (JObj (_alerts (self w')))) ∧
    (∃ e, list_alerts (self w') user_id = inl e) ∧
    (∀ (c : collaborators I) t holdings,
       ∃ e, check_triggered_alerts (self w') user_id c t holdings = inl e).
Proof.
  intros Hl Hlt Hty Hunknown.
  destruct (new_alert_dict user_id alert_data new_id now) as [e|d] eqn:Hd.
  { unfold new_alert_dict in Hd. by rewrite Hty in Hd. }
  assert (Hval : Alert_validate d = None).
  { destruct (new_alert_dict_lookups _ _ _ _ _ Hd) as (_ & _ & _ & _ & _ & Hat).
    destruct (new_alert_dict_fields _ _ _ _ _ Hd) as [Hu Hid].
    unfold Alert_validate. rewrite Hid, Hu, Hat, Hty. cbn. by rewrite Hunknown. }
  exists d. eexists.
  rewrite (create_alert_appends w user_id alert_data new_id now NoFault l d) by done.
  cbv zeta. rewrite save_no_fault. cbn [_to_alert]. rewrite Hval.
  split; [done|]. cbn [self dir data_file].
  assert (Hlist : ∃ e, list_alerts
            (set_alerts (self w) (<[user_id := JArr (l ++ [JObj d])%list]> (_alerts (self w))))
            user_id = inl e).
  { unfold list_alerts. rewrite get_user_alerts_insert. cbn.
    rewrite to_alerts_app. destruct (to_alerts l); cbn; [by eauto|].
    rewrite Hval. cbn. by eauto. }
  split_and!; [apply get_user_alerts_insert|done|done|].
  intros c t holdings. destruct Hlist as [e He]. exists e.
  unfold check_triggered_alerts. by rewrite He.
Qed.

Lemma unknown_alert_type_is_stored_witness :
  (∃ a, _get_user_alerts (self sample_world) "user1" = JArr [a]) ∧
  sample_unknown_payload !! "alert_type" = Some (JStr "price_drop") ∧
  AlertType_of "price_drop" = None ∧
  ∃ w',
    create_alert sample_world "user1" sample_unknown_payload "a-2" sample_now NoFault
      = (inl ValidationError, w') ∧
    (∃ a b, _get_user_alerts (self w') "user1" = JArr [a; b]) ∧
    list_alerts (self w') "user1" = inl ValidationError.
Proof.
  destruct (unknown_alert_type_is_stored (I:=()) sample_world "user1"
              sample_unknown_payload "a-2" sample_now "price_drop" [_]
              eq_refl eq_refl eq_refl eq_refl)
    as (d & w' & Hc & Hget & _ & _ & _).
  split_and!; [by eexists|reflexivity|reflexivity|].
  exists w'. split_and!; [exact Hc|eexists _, _; exact Hget|].
  assert (Hw' : w' = (create_alert sample_world "user1" sample_unknown_payload "a-2"
                        sample_now NoFault).2) by (by rewrite Hc).
  rewrite Hw'. reflexivity.
Defined.

(** ** Identifiers *)

Lemma without_id_ids l i filtered :
  without_id l i = inr filtered →
  (∀ j, j ∈ omap record_id filtered → j ∈ omap record_id l) ∧
  (NoDup (omap record_id l) → NoDup (omap record_id filtered)).
Proof.
  revert filtered. induction l as [|a l IH]; intros filtered; cbn.
  - by intros [= <-].
  - destruct (py_getitem a "id") as [e|v]; cbn; [done|].
    destruct (without_id l i) as [e|rest]; cbn; [done|]. intros [= <-].
    destruct (IH rest eq_refl) as [Hsub Hnd].
    destruct (py_ne_str v i); cbn; destruct (record_id a) as [j|]; cbn.
    + split.
      * intros k [->|Hk]%elem_of_cons; [left|right; auto].
      * intros [Hj Hl]%NoDup_cons. apply NoDup_cons. split; [|auto].
        intros Hj'. by apply Hj, Hsub.
    + split; auto.
    + split; [intros k Hk; right; auto|]. intros [_ Hl]%NoDup_cons. auto.
    + split; auto.
Qed.

Lemma create_alert_unique w u data i now io :
  ids_unique (self w) → id_unused i (self w) →
  ids_unique (self (create_alert w u data i now io).2).
Proof.
  intros Hu Hfresh.
  destruct (create_alert_cases w u data i now io)
    as [[-> _]|(l & d & Hl & _ & Hd & ->)]; [done|].
  assert (Hu' : ids_unique
            (set_alerts (self w) (<[u := JArr (l ++ [JObj d])]> (_alerts (self w))))).
  { intros u' v. cbn. rewrite lookup_insert. case_decide; [|apply Hu].
    intros [= <-]. cbn. rewrite omap_app. cbn.
    destruct (new_alert_dict_fields _ _ _ _ _ Hd) as [_ ->]. cbn.
    unfold _get_user_alerts in Hl.
    destruct (_alerts (self w) !! u) as [v|] eqn:Hv; cbn in Hl.
    - subst v. apply NoDup_app. split_and!.
      + apply (Hu u _ Hv).
      + intros j Hj ->%list_elem_of_singleton. by apply (Hfresh u _ Hv).
      + apply NoDup_singleton.
    - injection Hl as <-. cbn. apply NoDup_singleton. }
  by destruct io.
Qed.

Lemma delete_alert_unique w u i io :
  ids_unique (self w) → ids_unique (self (delete_alert w u i io).2).
Proof.
  intros Hu.
  destruct (delete_alert_cases w u i io)
    as [[-> _]|(items & filtered & Hit & Hf & _ & ->)]; [done|].
  assert (Hu' : ids_unique
            (set_alerts (self w) (<[u := JArr filtered]> (_alerts (self w))))).
  { intros u' v. cbn. rewrite lookup_insert. case_decide; [|apply Hu].
    intros [= <-]. cbn. apply (without_id_ids items i filtered Hf).
    unfold _get_user_alerts in Hit.
    destruct (_alerts (self w) !! u) as [v|] eqn:Hv; cbn in Hit.
    - specialize (Hu u v Hv). destruct v; cbn in Hit; simplify_eq; try done.
      + clear. induction s as [|c s IH]; cbn; [constructor|done].
      + clear. induction (map_to_list fields).*1 as [|k ks IH]; cbn;
          [constructor|done].
    - injection Hit as <-. constructor. }
  by destruct io.
Qed.

Lemma reaches_unique N w :
  reaches fresh_id (fresh_world N) w → ids_unique (self w).
Proof.
  induction 1 as [|w r _ IH Hr].
  - intros u v. cbn. by rewrite lookup_empty.
  - destruct r; cbn in *; [by apply create_alert_unique|by apply delete_alert_unique].
Qed.

(** The ids of a listing are the ids of the stored records, in order. *)
Lemma to_alerts_ids u l la :
  Forall (owned_by u) l → to_alerts l = inr la →
  Alert.id <$> la = omap record_id l.
Proof.
  intros Hown. revert la. induction Hown as [|a l (m & j & -> & _ & Hj) _ IH];
    intros la; cbn.
  - by intros [= <-].
  - destruct (Alert_validate m) as [x|] eqn:Hv; cbn; [|done].
    destruct (to_alerts l) as [e|xs]; cbn; [done|]. intros [= <-].
    rewrite Hj. cbn. rewrite (IH xs eq_refl).
    apply Alert_validate_fields in Hv as [Hid _]. congruence.
Qed.

Lemma list_alerts_ids s u la :
  well_owned s → list_alerts s u = inr la →
  Alert.id <$> la = owner_ids (_get_user_alerts s u).
Proof.
  intros Hs Hla. destruct (get_user_alerts_owned s u Hs) as (l & Hl & Hown).
  unfold list_alerts in Hla. rewrite Hl in *. cbn in Hla.
  by apply (to_alerts_ids u).
Qed.

Lemma list_alerts_unique N w u la :
  reaches fresh_id (fresh_world N) w → list_alerts (self w) u = inr la →
  NoDup (Alert.id <$> la).
Proof.
  intros Hreach Hla.
  rewrite (list_alerts_ids _ _ _ (proj1 (reaches_isolated N w Hreach)) Hla).
  unfold _get_user_alerts.
  destruct (_alerts (self w) !! u) as [v|] eqn:Hv; cbn; [|constructor].
  by apply (reaches_unique N w Hreach u).
Qed.

(** X11: as long as the generator hands out unused ids, no two alerts of
    the store share an id: two listed alerts with the same id are the same
    entry of the same owner's listing. *)
Theorem stored_ids_unique (N : Z) (w : world) (A B : string)
    (la lb : list Alert.t) (i j : nat) (x y : Alert.t) :
  reaches fresh_id (fresh_world N) w →
  list_alerts (self w) A = inr la →
  list_alerts (self w) B = inr lb →
  la !! i = Some x →
  lb !! j = Some y →
  Alert.id x = Alert.id y →
  A = B ∧ i = j.
Proof.
  intros Hreach Hla Hlb Hx Hy Heq.
  pose proof (reaches_isolated N w Hreach) as Hiso.
  destruct (decide (A = B)) as [->|Hne].
  - split; [done|]. assert (la = lb) as -> by congruence.
    apply (NoDup_lookup (Alert.id <$> lb) i j (Alert.id x)).
    + by apply (list_alerts_unique N w B).
    + by rewrite list_lookup_fmap, Hx.
    + by rewrite list_lookup_fmap, Hy, Heq.
  - exfalso. apply (isolated_ids (self w) A B (Alert.id x) Hiso Hne).
    + rewrite <-(list_alerts_ids _ _ _ (proj1 Hiso) Hla).
      apply list_elem_of_fmap. exists x. split; [done|]. by apply list_elem_of_lookup_2 in Hx.
    + rewrite <-(list_alerts_ids _ _ _ (proj1 Hiso) Hlb), Heq.
      apply list_elem_of_fmap. exists y. split; [done|]. by apply list_elem_of_lookup_2 in Hy.
Qed.

Lemma sample_world_two_reached :
  reaches fresh_id (fresh_world 2) sample_world_two.
Proof.
  apply (reaches_step fresh_id (fresh_world 2) sample_world
           (Create "user2" sample_payload "b-1" sample_now NoFault)).
  - apply (reaches_step fresh_id (fresh_world 2) (fresh_world 2)
             (Create "user1" sample_payload "a-1" sample_now NoFault));
      [apply reaches_here|apply map_Forall_empty].
  - unfold fresh_id, id_unused. compute_done.
Qed.

Lemma stored_ids_unique_witness :
  ∃ x y,
    reaches fresh_id (fresh_world 2) sample_world_two ∧
    list_alerts (self sample_world_two) "user1" = inr [x] ∧
    list_alerts (self sample_world_two) "user2" = inr [y] ∧
    Alert.id x ≠ Alert.id y.
Proof.
  eexists _, _.
  split; [exact sample_world_two_reached|].
  split; [reflexivity|]. split; [reflexivity|].
  intros Heq.
  destruct (stored_ids_unique 2 sample_world_two "user1" "user2" [_] [_] 0 0 _ _
              sample_world_two_reached eq_refl eq_refl eq_refl eq_refl Heq)
    as [Howner _].
  discriminate Howner.
Defined.

(** ** Deleting *)

Lemma without_id_owned u l i :
  Forall (owned_by u) l →
  without_id l i = inr (filter (λ a, record_id a ≠ Some i) l).
Proof.
  induction 1 as [|a l (m & j & -> & _ & Hj) _ IH]; [done|].
  destruct (decide (j = i)) as [->|Hne].
  - rewrite filter_cons_False by (cbn; rewrite Hj; by intros []).
    cbn [without_id py_getitem]. rewrite Hj, IH. cbn. by rewrite String.eqb_refl.
  - rewrite filter_cons_True by (cbn; rewrite Hj; congruence).
    cbn [without_id py_getitem]. rewrite Hj, IH. cbn.
    by destruct (String.eqb_spec j i).
Qed.

Lemma to_alerts_filter u l la i :
  Forall (owned_by u) l → to_alerts l = inr la →
  to_alerts (filter (λ a, record_id a ≠ Some i) l)
    = inr (filter (λ x, Alert.id x ≠ i) la).
Proof.
  intros Hown. revert la. induction Hown as [|a l (m & j & -> & _ & Hj) _ IH];
    intros la Hla.
  - by injection Hla as <-.
  - cbn in Hla. destruct (Alert_validate m) as [x|] eqn:Hv; [|done]. cbn in Hla.
    destruct (to_alerts l) as [e|xs]; [done|]. cbn in Hla. injection Hla as <-.
    apply Alert_validate_fields in Hv as Hf. destruct Hf as [Hid _].
    assert (Alert.id x = j) as Hx by congruence.
    destruct (decide (j = i)) as [->|Hne].
    + rewrite (filter_cons_False (λ a, record_id a ≠ Some i))
        by (cbn; rewrite Hj; by intros []).
      rewrite (filter_cons_False (λ x, Alert.id x ≠ i)) by (rewrite Hx; by intros []).
      by apply IH.
    + rewrite (filter_cons_True (λ a, record_id a ≠ Some i))
        by (cbn; rewrite Hj; congruence).
      rewrite (filter_cons_True (λ x, Alert.id x ≠ i)) by (by rewrite Hx).
      cbn. rewrite Hv. cbn. by rewrite (IH xs eq_refl).
Qed.

Lemma filter_other_ids (la : list Alert.t) (i : string) :
  i ∉ Alert.id <$> la → filter (λ x, Alert.id x ≠ i) la = la.
Proof.
  induction la as [|a la IH]; [done|]. rewrite fmap_cons.
  intros [Ha Hla]%not_elem_of_cons. rewrite filter_cons_True by done.
  by rewrite IH.
Qed.

(** Removing an id that occurs once removes one element. *)
Lemma filter_one_id (la : list Alert.t) (x : Alert.t) :
  NoDup (Alert.id <$> la) → x ∈ la →
  S (length (filter (λ a, Alert.id a ≠ Alert.id x) la)) = length la.
Proof.
  induction la as [|a la IH].
  - by intros _ ?%elem_of_nil.
  - rewrite fmap_cons. intros [Ha Hnd]%NoDup_cons Hx. rewrite filter_cons.
    destruct (decide (Alert.id a ≠ Alert.id x)) as [Hne|Heq]; cbn.
    + apply elem_of_cons in Hx as [->|Hx]; [done|]. by rewrite IH.
    + apply dec_stable in Heq. rewrite <-Heq. by rewrite filter_other_ids.
Qed.

(** X12: in a store built with unused ids, deleting the id of a listed
    alert returns, removes that alert and no other (the listing keeps the
    remaining alerts in their order and is shorter by one), and a second
    delete of the same id raises not-found and changes nothing. *)
Theorem delete_removes_exactly_one (N : Z) (w : world) (u : string)
    (la : list Alert.t) (x : Alert.t) :
  reaches fresh_id (fresh_world N) w →
  list_alerts (self w) u = inr la →
  x ∈ la →
  ∃ w',
    delete_alert w u (Alert.id x) NoFault = (inr (), w') ∧
    list_alerts (self w') u = inr (filter (λ a, Alert.id a ≠ Alert.id x) la) ∧
    S (length (filter (λ a, Alert.id a ≠ Alert.id x) la)) = length la ∧
    (∀ io, delete_alert w' u (Alert.id x) io
             = (inl (AlertNotFoundError (Alert.id x)), w')).
Proof.
  intros Hreach Hla Hx.
  pose proof (reaches_isolated N w Hreach) as [Hown _].
  pose proof (list_alerts_unique N w u la Hreach Hla) as Hnd.
  destruct (get_user_alerts_owned (self w) u Hown) as (l & Hl & Hl_own).
  unfold list_alerts in Hla. rewrite Hl in Hla. cbn in Hla.
  set (i := Alert.id x) in *.
  set (filtered := filter (λ a, record_id a ≠ Some i) l).
  pose proof (without_id_owned u l i Hl_own) as Hf. fold filtered in Hf.
  pose proof (to_alerts_filter u l la i Hl_own Hla) as Hla'. fold filtered in Hla'.
  pose proof (filter_one_id la x Hnd Hx) as Hlen. fold i in Hlen.
  assert (Hshort : length filtered ≠ length l).
  { rewrite <-(to_alerts_length _ _ Hla'), <-(to_alerts_length _ _ Hla). lia. }
  set (w' := World
    (set_alerts (self w) (<[u := JArr filtered]> (_alerts (self w))))
    (Directory (Some (Json (JObj (<[u := JArr filtered]> (_alerts (self w))))))
       (tmp_files (dir w)))).
  assert (Hget : _get_user_alerts (self w') u = JArr filtered)
    by apply get_user_alerts_insert.
  exists w'. rewrite (delete_alert_list w u i NoFault l filtered Hl Hf).
  apply Nat.eqb_neq in Hshort. rewrite Hshort. cbv zeta. rewrite save_no_fault.
  split_and!; [done| |done|].
  - unfold list_alerts. by rewrite Hget.
  - intros io.
    assert (Hown' : Forall (owned_by u) filtered).
    { apply Forall_forall. intros a [_ Ha]%list_elem_of_filter.
      rewrite Forall_forall in Hl_own. auto. }
    assert (Hgone : i ∉ owner_ids (JArr filtered)).
    { cbn. intros (a & [Hne Ha]%list_elem_of_filter & Hid)%list_elem_of_omap. done. }
    rewrite (delete_alert_list w' u i io filtered filtered Hget
               (without_id_absent u filtered i Hown' Hgone)).
    by rewrite Nat.eqb_refl.
Qed.

Lemma delete_removes_exactly_one_witness :
  ∃ x w',
    reaches fresh_id (fresh_world 2) sample_world_two ∧
    list_alerts (self sample_world_two) "user1" = inr [x] ∧
    delete_alert sample_world_two "user1" (Alert.id x) NoFault = (inr (), w') ∧
    list_alerts (self w') "user1" = inr [] ∧
    delete_alert w' "user1" (Alert.id x) NoFault
      = (inl (AlertNotFoundError (Alert.id x)), w').
Proof.
  eexists _.
  destruct (delete_removes_exactly_one 2 sample_world_two "user1" [_] _
              sample_world_two_reached eq_refl ltac:(left))
    as (w' & Hdel & Hlist & _ & Hagain).
  exists w'.
  split_and!; [exact sample_world_two_reached|reflexivity|exact Hdel|exact Hlist|
               exact (Hagain NoFault)].
Defined.

(** * Further properties of the evaluation *)

(** X13: a price-threshold evaluation ends in an error exactly when the
    fetch fails, the fetched frame has no row, or the alert lacks its
    direction or its target; the result then has a false verdict, no
    value and no explanation, and when it is the fetch that failed the
    error reads "Failed to fetch data for <ticker>: <message>". *)
Theorem price_threshold_error_iff {I} (c : collaborators I) (now : string)
    (alert : Alert.t) :
  let r := evaluate_price_threshold c now alert in
  (TriggeredAlertResult.error r = None ↔
     ∃ closes p d t,
       fetch_historical_data c (Alert.ticker alert) = inr closes ∧
       last closes = Some p ∧
       Alert.price_direction alert = Some d ∧
       Alert.target_price alert = Some t) ∧
  (TriggeredAlertResult.error r ≠ None →
     TriggeredAlertResult.triggered r = false ∧
     TriggeredAlertResult.current_value r = None ∧
     TriggeredAlertResult.details r = None) ∧
  (∀ msg, fetch_historical_data c (Alert.ticker alert) = inl msg →
     TriggeredAlertResult.error r =
       Some ("Failed to fetch data for " +:+ str_opt (Alert.ticker alert) +:+
             ": " +:+ msg)).
Proof.
  unfold evaluate_price_threshold, last_close. cbn.
  destruct (fetch_historical_data c (Alert.ticker alert)) as [e|closes] eqn:Hf; cbn.
  { split_and!; [|done|by intros msg [= <-]].
    split; [done|]. by intros (? & ? & ? & ? & ? & _). }
  destruct (last closes) as [p|] eqn:Hl; cbn.
  2: { split_and!; [|done|done]. split; [done|].
       intros (? & ? & ? & ? & [= <-] & ? & _). congruence. }
  destruct (Alert.price_direction alert) as [d|] eqn:Hd; cbn.
  2: { split_and!; [|done|done]. split; [done|].
       by intros (? & ? & ? & ? & _ & _ & ? & _). }
  destruct (Alert.target_price alert) as [t|] eqn:Ht; cbn.
  - destruct d; cbn; (split_and!; [|done|done]); split; eauto 10.
  - destruct d; cbn; (split_and!; [|done|done]); split; try done;
      by intros (? & ? & ? & ? & _ & _ & _ & ?).
Qed.

Lemma price_threshold_error_iff_witness :
  TriggeredAlertResult.error
    (evaluate_price_threshold sample_market sample_now sample_unfetchable_alert)
    = Some "Failed to fetch data for ZZZZ: No data found" ∧
  TriggeredAlertResult.triggered
    (evaluate_price_threshold sample_market sample_now sample_unfetchable_alert)
    = false.
Proof.
  destruct (price_threshold_error_iff sample_market sample_now
              sample_unfetchable_alert) as (_ & Hshape & Hmsg).
  pose proof (Hmsg "No data found" eq_refl) as Herr.
  split; [exact Herr|]. apply Hshape. discriminate.
Defined.

(** X14: a signal-change evaluation whose collaborators all answer is
    triggered exactly when the generated signal is the value of the
    alert's target; the signal is the reported value.  When the indicator
    calculation, the current price or the signal generation fails, the
    result is an error worded as a failed fetch: "Failed to fetch data for
    <ticker>: <message>". *)
Theorem signal_change_verdict {I} (c : collaborators I) (now : string)
    (alert : Alert.t) (df : list float) (target : SignalTarget) :
  fetch_historical_data c (Alert.ticker alert) = inr df →
  Alert.target_signal alert = Some target →
  let r := evaluate_signal_change c now alert in
  (∀ indicators price signal,
     calculate c df = inr indicators →
     get_current_price c df = inr price →
     generate c indicators price = inr signal →
     (TriggeredAlertResult.triggered r = true ↔ signal = SignalTarget_value target) ∧
     TriggeredAlertResult.current_value r = Some signal ∧
     TriggeredAlertResult.error r = None) ∧
  (∀ msg,
     calculate c df = inl msg ∨
     (∃ indicators, calculate c df = inr indicators ∧
        (get_current_price c df = inl msg ∨
         ∃ price, get_current_price c df = inr price ∧
                  generate c indicators price = inl msg)) →
     TriggeredAlertResult.triggered r = false ∧
     TriggeredAlertResult.error r =
       Some ("Failed to fetch data for " +:+ str_opt (Alert.ticker alert) +:+
             ": " +:+ msg)).
Proof.
  intros Hf Ht r. subst r. unfold evaluate_signal_change. rewrite Hf, Ht. cbn.
  split.
  - intros indicators price signal Hc Hp Hg.
    rewrite Hc. cbn. rewrite Hp. cbn. rewrite Hg. cbn. split_and!; [|done|done].
    split; [by intros ?%String.eqb_eq|by intros ->; apply String.eqb_refl].
  - intros msg [Hc|(indicators & Hc & [Hp|(price & Hp & Hg)])]; rewrite Hc; cbn.
    + done.
    + by rewrite Hp.
    + rewrite Hp. cbn. by rewrite Hg.
Qed.

Lemma signal_change_verdict_witness :
  fetch_historical_data sample_market (Alert.ticker sample_signal_alert)
    = inr [f195; f205] ∧
  Alert.target_signal sample_signal_alert = Some BUY ∧
  TriggeredAlertResult.triggered
    (evaluate_signal_change sample_market sample_now sample_signal_alert) = true ∧
  TriggeredAlertResult.current_value
    (evaluate_signal_change sample_market sample_now sample_signal_alert)
    = Some "BUY".
Proof.
  destruct (signal_change_verdict sample_market sample_now sample_signal_alert
              [f195; f205] BUY eq_refl eq_refl) as [Hok _].
  destruct (Hok () f205 "BUY" eq_refl eq_refl eq_refl) as (Htr & Hcv & _).
  split_and!; [reflexivity|reflexivity|by apply Htr|exact Hcv].
Defined.

(** X15: whatever the collaborators do, the result of evaluating an alert
    in a batch refers to that alert, bears the clock's reading, and is
    either a verdict with its value and explanation and no error, or an
    error with a false verdict and neither value nor explanation. *)
Theorem result_is_verdict_or_error {I} (c : collaborators I) (now : string)
    (portfolio_holdings : option (list string)) (alert : Alert.t) :
  let r := evaluate_alert c now portfolio_holdings alert in
  TriggeredAlertResult.alert r = _alert_to_summary alert ∧
  TriggeredAlertResult.evaluated_at r = now ∧
  verdict_or_error r.
Proof.
  unfold evaluate_alert, verdict_or_error.
  destruct (Alert.alert_type alert).
  - unfold evaluate_price_threshold. cbn.
    destruct (fetch_historical_data c (Alert.ticker alert)); cbn; [by eauto 10|].
    destruct (last_close _); cbn; [by eauto 10|].
    destruct (attr_value (Alert.price_direction alert)); cbn; [by eauto 10|].
    destruct (String.eqb _ _);
      destruct (float_operand _ (Alert.target_price alert)); cbn; by eauto 10.
  - unfold evaluate_signal_change. cbn.
    destruct (fetch_historical_data c (Alert.ticker alert)) as [|df]; cbn;
      [by eauto 10|].
    destruct (calculate c df) as [|ind]; cbn; [by eauto 10|].
    destruct (get_current_price c df) as [|p]; cbn; [by eauto 10|].
    destruct (generate c ind p); cbn; [by eauto 10|].
    destruct (attr_value (Alert.target_signal alert)); cbn; by eauto 10.
  - unfold evaluate_portfolio_value.
    destruct (default [] portfolio_holdings); cbn; [by eauto 10|].
    destruct (float_operand _ _); cbn; by eauto 10.
Qed.

Lemma le_zero_of_pos th : F64.ltb F64.zero th = true → F64.leb th F64.zero = false.
Proof.
  unfold F64.ltb, F64.leb, SFltb, SFleb. rewrite (compare_antisym F64.zero th).
  by destruct (SFcompare F64.zero th) as [[]|].
Qed.

(** X16: a portfolio alert whose baseline is missing, zero, negative or
    not a number has a change of zero, so with a threshold above zero it
    is never triggered, whatever the holdings are worth. *)
Theorem no_baseline_never_triggers {I} (c : collaborators I) (now : string)
    (alert : Alert.t) (holdings : list string) (threshold : float) :
  Alert.percentage_threshold alert = Some threshold →
  F64.ltb F64.zero threshold = true →
  (Alert.baseline_value alert = None ∨
   ∃ b, Alert.baseline_value alert = Some b ∧ F64.ltb F64.zero b = false) →
  let r := evaluate_portfolio_value c now alert holdings in
  TriggeredAlertResult.triggered r = false ∧
  TriggeredAlertResult.error r = None.
Proof.
  intros Hth Hpos Hbase r. subst r.
  destruct holdings as [|t holdings]; [done|].
  rewrite (evaluate_portfolio_value_unfold c now alert (t :: holdings) threshold)
    by done.
  cbv zeta. cbn [TriggeredAlertResult.triggered TriggeredAlertResult.error].
  split; [|done].
  assert (F64.ltb F64.zero (baseline_of alert) = false) as Hb.
  { unfold baseline_of. destruct Hbase as [->|(b & -> & Hb)]; [done|].
    by destruct (F64.truthy b). }
  unfold pct_change. rewrite Hb. by apply le_zero_of_pos.
Qed.

Lemma no_baseline_never_triggers_witness :
  Alert.percentage_threshold sample_no_baseline_alert = Some f5 ∧
  F64.ltb F64.zero f5 = true ∧
  Alert.baseline_value sample_no_baseline_alert = None ∧
  TriggeredAlertResult.triggered
    (evaluate_portfolio_value sample_market sample_now sample_no_baseline_alert ["X"])
    = false.
Proof.
  destruct (no_baseline_never_triggers sample_market sample_now
              sample_no_baseline_alert ["X"] f5 eq_refl eq_refl (or_introl eq_refl))
    as [Htr _].
  split_and!; [reflexivity|reflexivity|reflexivity|exact Htr].
Defined.

Lemma ltb_asymmetric x y : F64.ltb x y = true → F64.ltb y x = false.
Proof.
  unfold F64.ltb, SFltb. rewrite (compare_antisym x y).
  by destruct (SFcompare x y) as [[]|].
Qed.

(** X17: two price-threshold alerts on the same ticker with the same
    target, one watching for a price above it and one for a price below
    it, are never both triggered by the same market. *)
Theorem above_and_below_exclusive {I} (c : collaborators I) (now : string)
    (above below : Alert.t) (target : float) :
  Alert.ticker above = Alert.ticker below →
  Alert.target_price above = Some target →
  Alert.target_price below = Some target →
  Alert.price_direction above = Some ABOVE →
  Alert.price_direction below = Some BELOW →
  TriggeredAlertResult.triggered (evaluate_price_threshold c now above) = true →
  TriggeredAlertResult.triggered (evaluate_price_threshold c now below) = false.
Proof.
  intros Htk Ha Hb Hda Hdb. unfold evaluate_price_threshold.
  rewrite <-Htk, Ha, Hb, Hda, Hdb. cbn.
  destruct (fetch_historical_data c (Alert.ticker above)) as [e|df]; cbn; [done|].
  destruct (last_close df) as [e|p]; cbn; [done|].
  apply ltb_asymmetric.
Qed.

Lemma above_and_below_exclusive_witness :
  TriggeredAlertResult.triggered
    (evaluate_price_threshold sample_market sample_now sample_price_alert) = true ∧
  TriggeredAlertResult.triggered
    (evaluate_price_threshold sample_market sample_now
       (Alert.mk "a-6" "user1" PRICE_THRESHOLD (Some "AAPL") (Some f200) (Some BELOW)
          None None None sample_now)) = false.
Proof.
  split; [reflexivity|].
  exact (above_and_below_exclusive sample_market sample_now sample_price_alert
           (Alert.mk "a-6" "user1" PRICE_THRESHOLD (Some "AAPL") (Some f200)
              (Some BELOW) None None None sample_now)
           f200 eq_refl eq_refl eq_refl eq_refl eq_refl eq_refl).
Defined.
